(** * A shallow embedding of the chess engine of [app.py]

    The engine scores positions with [evaluate_board], orders moves with
    [calculate_mvl_lva], searches with [quiescence_search] and [minimax]
    through a global transposition table, and answers requests in
    [get_ai_move].  The rules of chess come from the python-chess library;
    the engine sees them through the interface [RulesProvider].

    Layout: the vocabulary of python-chess that the engine uses, the
    engine itself over an arbitrary rules provider, a model of the
    python-chess board ([PyChess]) on which the engine can be run on real
    positions, and then the theorems. *)

From Stdlib Require Import ZArith QArith List String Ascii Bool Lia.
From Stdlib Require Import Permutation Sorted Lqa.
From stdpp Require Import base gmap strings list pretty.

Open Scope Z_scope.

(** ** Vocabulary of python-chess *)

(** [chess.Color] is [bool]: [chess.WHITE = True], [chess.BLACK = False]. *)
Definition Color := bool.
Definition WHITE : Color := true.
Definition BLACK : Color := false.

(** [chess.PieceType], the integers 1..6. *)
Inductive PieceType := PAWN | KNIGHT | BISHOP | ROOK | QUEEN | KING.

Record Piece := mkPiece { piece_type : PieceType; color : Color }.

(** Squares are the integers 0..63, a1 = 0, b1 = 1, ..., h8 = 63. *)
Definition Square := Z.

Record Move := mkMove {
  from_square : Square;
  to_square : Square;
  promotion : option PieceType
}.

Definition square_file (sq : Square) : Z := Z.land sq 7.
Definition square_rank (sq : Square) : Z := Z.shiftr sq 3.
Definition square (file_index rank_index : Z) : Square := rank_index * 8 + file_index.

(** Python's [range(a, b)]. *)
Definition range (a b : Z) : list Z :=
  map (fun i => a + Z.of_nat i) (seq 0 (Z.to_nat (b - a))).

(** [chess.SQUARES]. *)
Definition SQUARES : list Square := range 0 64.

Definition B1 : Square := 1.
Definition C1 : Square := 2.
Definition F1 : Square := 5.
Definition G1 : Square := 6.
Definition D4 : Square := 27.
Definition E4 : Square := 28.
Definition D5 : Square := 35.
Definition E5 : Square := 36.
Definition B8 : Square := 57.
Definition C8 : Square := 58.
Definition F8 : Square := 61.
Definition G8 : Square := 62.

Definition PieceType_eqb (a b : PieceType) : bool :=
  match a, b with
  | PAWN, PAWN | KNIGHT, KNIGHT | BISHOP, BISHOP
  | ROOK, ROOK | QUEEN, QUEEN | KING, KING => true
  | _, _ => false
  end.

Definition Piece_eqb (p q : Piece) : bool :=
  PieceType_eqb (piece_type p) (piece_type q) && Bool.eqb (color p) (color q).

(** An exception: its class and [str(e)]. *)
Record Exn := mkExn { exn_class : string; exn_message : string }.

Definition RecursionError : Exn :=
  mkExn "RecursionError" "maximum recursion depth exceeded".

(** ** The rules provider

    The operations of [chess.Board] that [app.py] calls.  A board is a
    mutable object in Python; [push] and [pop] are its two mutators and
    return the board after the mutation.  [with_turn b c] is the board
    obtained by [t = b.copy(); t.turn = c]. *)
Class RulesProvider (Board : Type) := {
  Board_of_fen : string -> Exn + Board;
  fen : Board -> string;
  piece_at : Board -> Square -> option Piece;
  king : Board -> Color -> option Square;
  turn : Board -> Color;
  with_turn : Board -> Color -> Board;
  fullmove_number : Board -> Z;
  legal_moves : Board -> list Move;
  is_attacked_by : Board -> Color -> Square -> bool;
  attackers : Board -> Color -> Square -> list Square;
  is_capture : Board -> Move -> bool;
  gives_check : Board -> Move -> bool;
  is_check : Board -> bool;
  is_checkmate : Board -> bool;
  is_stalemate : Board -> bool;
  is_insufficient_material : Board -> bool;
  is_fivefold_repetition : Board -> bool;
  is_seventyfive_moves : Board -> bool;
  is_game_over : Board -> bool;
  push : Board -> Move -> Board;
  pop : Board -> Board
}.

(** ** Configuration: piece values and piece-square tables *)

Definition PIECE_VALUES (pt : PieceType) : Z :=
  match pt with
  | PAWN => 100
  | KNIGHT => 320
  | BISHOP => 330
  | ROOK => 500
  | QUEEN => 900
  | KING => 20000
  end.

Definition PAWN_TABLE : list (list Z) :=
  [ [0; 0; 0; 0; 0; 0; 0; 0];
    [50; 50; 50; 50; 50; 50; 50; 50];
    [10; 10; 20; 30; 30; 20; 10; 10];
    [5; 5; 10; 25; 25; 10; 5; 5];
    [0; 0; 0; 0; 0; 0; 0; 0];
    [5; -5; -10; 0; 0; -10; -5; 5];
    [5; 10; 10; -20; -20; 10; 10; 5];
    [0; 0; 0; 0; 0; 0; 0; 0] ].

Definition KNIGHT_TABLE : list (list Z) :=
  [ [-50; -40; -30; -30; -30; -30; -40; -50];
    [-40; -20; 0; 0; 0; 0; -20; -40];
    [-30; 0; 10; 15; 15; 10; 0; -30];
    [-30; 5; 15; 20; 20; 15; 5; -30];
    [-30; 0; 15; 20; 20; 15; 0; -30];
    [-30; 5; 10; 15; 15; 10; 5; -30];
    [-40; -20; 0; 5; 5; 0; -20; -40];
    [-50; -40; -30; -30; -30; -30; -30; -50] ].

Definition BISHOP_TABLE : list (list Z) :=
  [ [-20; -10; -10; -10; -10; -10; -10; -20];
    [-10; 0; 0; 0; 0; 0; 0; -10];
    [-10; 0; 5; 10; 10; 5; 0; -10];
    [-10; 5; 5; 10; 10; 5; 5; -10];
    [-10; 0; 10; 10; 10; 10; 0; -10];
    [-10; 10; 10; 10; 10; 10; 10; -10];
    [-10; 5; 0; 0; 0; 0; 5; -10];
    [-20; -10; -10; -10; -10; -10; -10; -20] ].

Definition ROOK_TABLE : list (list Z) :=
  [ [0; 0; 0; 0; 0; 0; 0; 0];
    [5; 10; 10; 10; 10; 10; 10; 5];
    [-5; 0; 0; 0; 0; 0; 0; -5];
    [-5; 0; 0; 0; 0; 0; 0; -5];
    [-5; 0; 0; 0; 0; 0; 0; -5];
    [-5; 0; 0; 0; 0; 0; 0; -5];
    [-5; 0; 0; 0; 0; 0; 0; -5];
    [0; 0; 0; 5; 5; 0; 0; 0] ].

Definition QUEEN_TABLE : list (list Z) :=
  [ [-20; -10; -10; -5; -5; -10; -10; -20];
    [-10; 0; 0; 0; 0; 0; 0; -10];
    [-10; 0; 5; 5; 5; 5; 0; -10];
    [-5; 0; 5; 5; 5; 5; 0; -5];
    [0; 0; 5; 5; 5; 5; 0; -5];
    [-10; 5; 5; 5; 5; 5; 0; -10];
    [-10; 0; 5; 0; 0; 0; 0; -10];
    [-20; -10; -10; -5; -5; -10; -10; -20] ].

Definition KING_TABLE : list (list Z) :=
  [ [-30; -40; -40; -50; -50; -40; -40; -30];
    [-30; -40; -40; -50; -50; -40; -40; -30];
    [-30; -40; -40; -50; -50; -40; -40; -30];
    [-30; -40; -40; -50; -50; -40; -40; -30];
    [-20; -30; -30; -40; -40; -30; -30; -20];
    [-10; -20; -20; -20; -20; -20; -20; -10];
    [20; 20; 0; 0; 0; 0; 20; 20];
    [20; 30; 10; 0; 0; 10; 30; 20] ].

Definition PIECE_TABLES (pt : PieceType) : list (list Z) :=
  match pt with
  | PAWN => PAWN_TABLE
  | KNIGHT => KNIGHT_TABLE
  | BISHOP => BISHOP_TABLE
  | ROOK => ROOK_TABLE
  | QUEEN => QUEEN_TABLE
  | KING => KING_TABLE
  end.

(** [get_piece_table]: the table, with rows and columns reversed for
    black. Every piece type has a table, so the result is never [None]. *)
Definition get_piece_table (pt : PieceType) (c : Color) : list (list Z) :=
  let table := PIECE_TABLES pt in
  if Bool.eqb c BLACK then map (@rev Z) (rev table) else table.

(** [table[row][col]] on the 8x8 tables. *)
Definition table_at (table : list (list Z)) (row col : Z) : Z :=
  nth (Z.to_nat col) (nth (Z.to_nat row) table []) 0.

(** Scores. [evaluate_board] mixes Python integers with the floats
    [value * 0.8] and [15 / 2]; for the six piece values the product with
    0.8 is an integral float and every score is a multiple of one half far
    below 2^53, so float arithmetic is exact on them: scores are rationals. *)
Definition Zq (z : Z) : Q := inject_Z z.

Definition sum_Q {A} (f : A -> Q) (l : list A) : Q :=
  fold_left (fun acc x => (acc + f x)%Q) l 0%Q.


(** ** The evaluator *)

Section Evaluator.
Context {Board : Type} `{RulesProvider Board}.

(** [board.piece_at(sq) == chess.Piece(t, c)]. *)
Definition piece_is (board : Board) (sq : Square) (p : Piece) : bool :=
    match piece_at board sq with
    | Some q => Piece_eqb q p
    | None => false
    end.

Definition color_of (ai_color_is_white : bool) : Color :=
    if ai_color_is_white then WHITE else BLACK.

(** [x if cond else -x]. *)
Definition signed (cond : bool) (x : Q) : Q := if cond then x else (- x)%Q.

(** [_is_path_clear]. *)
Definition _is_path_clear (board : Board) (square1 square2 : Square) : bool :=
    let file1 := square_file square1 in
    let rank1 := square_rank square1 in
    let file2 := square_file square2 in
    let rank2 := square_rank square2 in
    if rank1 =? rank2 then
      forallb (fun f => negb (bool_decide (is_Some (piece_at board (square f rank1)))))
              (range (Z.min file1 file2 + 1) (Z.max file1 file2))
    else if file1 =? file2 then
      forallb (fun r => negb (bool_decide (is_Some (piece_at board (square file1 r)))))
              (range (Z.min rank1 rank2 + 1) (Z.max rank1 rank2))
    else true.

Definition _is_valid_coord (coord : Z) : bool := (0 <=? coord) && (coord <=? 7).

(** [_is_passed_pawn]: no opposing pawn ahead on the pawn's file or on
      an adjacent file. *)
Definition _is_passed_pawn (board : Board) (sq : Square) (pawn_color : Color) : bool :=
    let file_idx := square_file sq in
    let rank_idx := square_rank sq in
    let opponent_color := if Bool.eqb pawn_color WHITE then BLACK else WHITE in
    let ranks_ahead :=
      if Bool.eqb pawn_color WHITE then range (rank_idx + 1) 8
      else rev (range 0 rank_idx) in
    forallb (fun f =>
      forallb (fun r => negb (piece_is board (square f r) (mkPiece PAWN opponent_color)))
              ranks_ahead)
      (range (Z.max 0 (file_idx - 1)) (Z.min 8 (file_idx + 2))).

(** *** Material, piece-square value, mobility and hanging pieces
    (the first loop over [chess.SQUARES]) *)

(** The hanging-piece step for the piece on [sq]:

      if board.is_attacked_by(opponent_color, square) and not board.is_attacked_by(piece_color, square):
          if piece_color == ai_color: score -= value * 0.8
          else: score += value * 0.8                                      *)
Definition hanging_term (board : Board) (ai_color_is_white : bool)
           (sq : Square) (piece : Piece) : Q :=
  let ai_color := color_of ai_color_is_white in
  let opponent_color := color_of (negb ai_color_is_white) in
  let value := PIECE_VALUES (piece_type piece) in
  if is_attacked_by board opponent_color sq
     && negb (is_attacked_by board (color piece) sq)
  then signed (negb (Bool.eqb (color piece) ai_color)) (Zq value * (8 # 10))
  else 0%Q.

Definition piece_term (board : Board) (ai_color_is_white : bool) (sq : Square) : Q :=
  let ai_color := color_of ai_color_is_white in
  match piece_at board sq with
  | None => 0%Q
  | Some piece =>
    let value := PIECE_VALUES (piece_type piece) in
    let row := square_rank sq in
    let col := square_file sq in
    let table := get_piece_table (piece_type piece) (color piece) in
    let positional_value := table_at table row col in
    let own := Bool.eqb (color piece) ai_color in
    let mobility_bonus :=
      Z.of_nat (length (legal_moves (with_turn board (color piece)))) * 2 in
    (signed own (Zq (value + positional_value))
     + signed own (Zq mobility_bonus)
     + hanging_term board ai_color_is_white sq piece)%Q
  end.

Definition pieces_term (board : Board) (ai_color_is_white : bool) : Q :=
    sum_Q (piece_term board ai_color_is_white) SQUARES.

(** *** Bishop pair *)
Definition count_bishops (board : Board) (c : Color) : Z :=
    Z.of_nat (length (List.filter (fun sq =>
      match piece_at board sq with
      | Some p => PieceType_eqb (piece_type p) BISHOP && Bool.eqb (color p) c
      | None => false
      end) SQUARES)).

Definition bishop_pair_term (board : Board) (ai_color_is_white : bool) : Q :=
    ((if 2 <=? count_bishops board WHITE then signed ai_color_is_white 30 else 0)
     + (if 2 <=? count_bishops board BLACK then signed (negb ai_color_is_white) 30 else 0))%Q.

(** *** Rook connection *)
Definition rooks_of (board : Board) (c : Color) : list Square :=
    List.filter (fun sq => piece_is board sq (mkPiece ROOK c)) SQUARES.

(** The pairs [(l[i], l[j])], [i < j], in the order of the two loops. *)
Fixpoint index_pairs {A} (l : list A) : list (A * A) :=
    match l with
    | [] => []
    | x :: rest => map (fun y => (x, y)) rest ++ index_pairs rest
    end.

Definition rook_connection_bonus : Q := 10.

Definition white_rook_pair (board : Board) (ai_color_is_white : bool)
             (p : Square * Square) : Q :=
    let '(sq1, sq2) := p in
    if square_rank sq1 =? square_rank sq2 then
      if _is_path_clear board sq1 sq2
      then signed ai_color_is_white rook_connection_bonus else 0%Q
    else if square_file sq1 =? square_file sq2 then
      if _is_path_clear board sq1 sq2
      then signed (negb ai_color_is_white) rook_connection_bonus else 0%Q
    else 0%Q.

Definition black_rook_pair (board : Board) (ai_color_is_white : bool)
             (p : Square * Square) : Q :=
    let '(sq1, sq2) := p in
    if square_rank sq1 =? square_rank sq2 then
      if _is_path_clear board sq1 sq2
      then signed (negb ai_color_is_white) rook_connection_bonus else 0%Q
    else if square_file sq1 =? square_file sq2 then
      if _is_path_clear board sq1 sq2
      then signed (negb ai_color_is_white) rook_connection_bonus else 0%Q
    else 0%Q.

Definition rook_connection_term (board : Board) (ai_color_is_white : bool) : Q :=
    (sum_Q (white_rook_pair board ai_color_is_white) (index_pairs (rooks_of board WHITE))
     + sum_Q (black_rook_pair board ai_color_is_white) (index_pairs (rooks_of board BLACK)))%Q.

(** *** Pawn structure *)
Definition pawns_in_file (board : Board) (c : Color) (file_index : Z) : Z :=
    Z.of_nat (length (List.filter (fun rank =>
      piece_is board (square file_index rank) (mkPiece PAWN c)) (range 0 8))).

Definition is_isolated (board : Board) (c : Color) (file_index : Z) : bool :=
    (0 <? pawns_in_file board c file_index)
    && ((file_index =? 0) || (pawns_in_file board c (file_index - 1) =? 0))
    && ((file_index =? 7) || (pawns_in_file board c (file_index + 1) =? 0)).

Definition connected_pawn (board : Board) (ai_color_is_white : bool)
             (file_index rank_index : Z) : Q :=
    match piece_at board (square file_index rank_index) with
    | Some pawn =>
      if PieceType_eqb (piece_type pawn) PAWN then
        let own := Bool.eqb (color pawn) (color_of ai_color_is_white) in
        ((if (0 <? file_index)
             && piece_is board (square (file_index - 1) rank_index)
                         (mkPiece PAWN (color pawn))
          then signed own 5 else 0)
         + (if (file_index <? 7)
               && piece_is board (square (file_index + 1) rank_index)
                           (mkPiece PAWN (color pawn))
            then signed own 5 else 0))%Q
      else 0%Q
    | None => 0%Q
    end.

Definition pawn_file_term (board : Board) (ai_color_is_white : bool)
             (file_index : Z) : Q :=
    ((if 1 <? pawns_in_file board WHITE file_index
      then signed ai_color_is_white (-20) else 0)
     + (if 1 <? pawns_in_file board BLACK file_index
        then signed (negb ai_color_is_white) (-20) else 0)
     + (if is_isolated board WHITE file_index
        then signed ai_color_is_white (-15) else 0)
     + (if is_isolated board BLACK file_index
        then signed (negb ai_color_is_white) (-15) else 0)
     + sum_Q (connected_pawn board ai_color_is_white file_index) (range 0 8))%Q.

Definition pawn_structure_term (board : Board) (ai_color_is_white : bool) : Q :=
    sum_Q (pawn_file_term board ai_color_is_white) (range 0 8).

(** *** King safety: pawn shield, open file, check.
    [if king_square_white:] is false for [None] and for square 0 (a1). *)
Definition truthy_square (sq : option Square) : option Square :=
  match sq with
  | Some s => if s =? 0 then None else Some s
  | None => None
  end.

Definition king_safety_bonus : Q := 10.
Definition king_attack_penalty : Q := 50.
Definition king_open_file_penalty : Q := 10.

(** The pawn shield of the king of colour [c] on [king_square]: 10 for
    each own pawn one rank towards the king's own side ([forward = -1] for
    white, [+1] for black), 5 two ranks away, on the three files around
    the king. *)
Definition pawn_shield (board : Board) (c : Color) (forward : Z)
           (king_square : Square) : Z :=
  let king_rank := square_rank king_square in
  let king_file := square_file king_square in
  fold_left (fun safety f =>
      let target_rank_1 := king_rank + forward in
      let safety :=
        if _is_valid_coord target_rank_1
           && piece_is board (square f target_rank_1) (mkPiece PAWN c)
        then safety + 10 else safety in
      let target_rank_2 := king_rank + 2 * forward in
      if _is_valid_coord target_rank_2
         && piece_is board (square f target_rank_2) (mkPiece PAWN c)
      then safety + 5 else safety)
    (range (Z.max 0 (king_file - 1)) (Z.min 8 (king_file + 2))) 0.

Definition king_on_open_file (board : Board) (c : Color) (king_square : Square) : bool :=
  negb (existsb (fun r => piece_is board (square (square_file king_square) r)
                                   (mkPiece PAWN c)) (range 0 8)).

Definition white_king_term (board : Board) (ai_color_is_white : bool) : Q :=
  match truthy_square (king board WHITE) with
  | None => 0%Q
  | Some king_square_white =>
    let white_king_safety := pawn_shield board WHITE (-1) king_square_white in
    ((if king_on_open_file board WHITE king_square_white
      then - king_open_file_penalty else 0)
     + (if is_check board
        then (if ai_color_is_white then - king_attack_penalty else king_attack_penalty)
        else 0)
     + signed ai_color_is_white (Zq white_king_safety))%Q
  end.

Definition black_king_term (board : Board) (ai_color_is_white : bool) : Q :=
  match truthy_square (king board BLACK) with
  | None => 0%Q
  | Some king_square_black =>
    let black_king_safety := pawn_shield board BLACK 1 king_square_black in
    ((if king_on_open_file board BLACK king_square_black
      then - king_open_file_penalty else 0)
     + (if is_check board
        then (if negb ai_color_is_white then - king_attack_penalty else king_attack_penalty)
        else 0)
     + signed (negb ai_color_is_white) (Zq black_king_safety))%Q
  end.

Definition king_safety_term (board : Board) (ai_color_is_white : bool) : Q :=
  (white_king_term board ai_color_is_white + black_king_term board ai_color_is_white)%Q.

(** *** Center control *)
Definition central_squares : list Square := [D4; E4; D5; E5].
Definition center_control_bonus : Q := 10.

Definition center_control_term (board : Board) (ai_color_is_white : bool) : Q :=
  sum_Q (fun sq =>
    match piece_at board sq with
    | Some piece =>
      signed (Bool.eqb (color piece) (color_of ai_color_is_white)) center_control_bonus
    | None => 0%Q
    end) central_squares.

(** *** Development (early game).  The loop body is

      if piece and piece.color == c and piece.piece_type in [KNIGHT, BISHOP]:
          pass
      elif piece is None:
          pass
      else:
          if piece.color == c and piece.piece_type in [KNIGHT, BISHOP]:
              developed += 1                                              *)
Definition minor_of (c : Color) (piece : Piece) : bool :=
  Bool.eqb (color piece) c
  && (PieceType_eqb (piece_type piece) KNIGHT || PieceType_eqb (piece_type piece) BISHOP).

Definition developed_pieces (board : Board) (c : Color) (home : list Square) : Z :=
  fold_left (fun developed sq =>
      match piece_at board sq with
      | Some piece =>
        if minor_of c piece then developed
        else if minor_of c piece then developed + 1 else developed
      | None => developed
      end) home 0.

Definition development_term (board : Board) (ai_color_is_white : bool) : Q :=
  if fullmove_number board <? 6 then
    let white_developed_pieces := developed_pieces board WHITE [B1; C1; F1; G1] in
    let black_developed_pieces := developed_pieces board BLACK [B8; C8; F8; G8] in
    if ai_color_is_white
    then Zq (white_developed_pieces * 10 - black_developed_pieces * 10)
    else Zq (black_developed_pieces * 10 - white_developed_pieces * 10)
  else 0%Q.

(** *** Rooks on open and semi-open files *)
Definition rook_open_semi_file_bonus : Q := 15.

Definition file_has (board : Board) (file_idx : Z) (p : Piece) : bool :=
  existsb (fun rank_idx => piece_is board (square file_idx rank_idx) p) (range 0 8).

Definition rook_file_term (board : Board) (ai_color_is_white : bool) (file_idx : Z) : Q :=
  let file_is_open_white := negb (file_has board file_idx (mkPiece PAWN WHITE)) in
  let file_is_open_black := negb (file_has board file_idx (mkPiece PAWN BLACK)) in
  let has_white_rook := file_has board file_idx (mkPiece ROOK WHITE) in
  let has_black_rook := file_has board file_idx (mkPiece ROOK BLACK) in
  ((if has_white_rook && file_is_open_white && file_is_open_black
    then signed ai_color_is_white rook_open_semi_file_bonus
    else if has_white_rook && file_is_open_black
    then signed ai_color_is_white (rook_open_semi_file_bonus / 2)
    else 0)
   + (if has_black_rook && file_is_open_black && file_is_open_white
      then signed (negb ai_color_is_white) rook_open_semi_file_bonus
      else if has_black_rook && file_is_open_white
      then signed (negb ai_color_is_white) (rook_open_semi_file_bonus / 2)
      else 0))%Q.

Definition rook_files_term (board : Board) (ai_color_is_white : bool) : Q :=
  sum_Q (rook_file_term board ai_color_is_white) (range 0 8).

(** *** Passed pawns *)
Definition passed_pawn_base_bonus : Z := 50.

Definition passed_pawn_term (board : Board) (ai_color_is_white : bool) : Q :=
  sum_Q (fun sq =>
    match piece_at board sq with
    | Some piece =>
      if PieceType_eqb (piece_type piece) PAWN && _is_passed_pawn board sq (color piece)
      then
        let rank := square_rank sq in
        let advancement_bonus :=
          if Bool.eqb (color piece) WHITE then (rank - 1) * 10 else (6 - rank) * 10 in
        signed (Bool.eqb (color piece) (color_of ai_color_is_white))
               (Zq (passed_pawn_base_bonus + advancement_bonus))
      else 0%Q
    | None => 0%Q
    end) SQUARES.

(** *** Knight outposts *)
Definition knight_outpost_bonus : Q := 25.

Definition pawn_among (board : Board) (c : Color) (sqs : list Square) : bool :=
  existsb (fun pawn_sq => piece_is board pawn_sq (mkPiece PAWN c)) sqs.

Definition knight_outpost_term (board : Board) (ai_color_is_white : bool) : Q :=
  sum_Q (fun sq =>
    match piece_at board sq with
    | Some piece =>
      if PieceType_eqb (piece_type piece) KNIGHT
         && existsb (Z.eqb sq) central_squares
      then
        let knight_color := color piece in
        let is_defended_by_pawn :=
          pawn_among board knight_color (attackers board knight_color sq) in
        let opp_color := if Bool.eqb knight_color WHITE then BLACK else WHITE in
        let is_attacked_by_opp_pawn :=
          pawn_among board opp_color (attackers board opp_color sq) in
        if is_defended_by_pawn && negb is_attacked_by_opp_pawn
        then signed (Bool.eqb knight_color (color_of ai_color_is_white))
                    knight_outpost_bonus
        else 0%Q
      else 0%Q
    | None => 0%Q
    end) SQUARES.

(** *** [evaluate_board]: the sum of the terms, in the order of the source *)
Definition evaluate_board (board : Board) (ai_color_is_white : bool) : Q :=
  (pieces_term board ai_color_is_white
   + bishop_pair_term board ai_color_is_white
   + rook_connection_term board ai_color_is_white
   + pawn_structure_term board ai_color_is_white
   + king_safety_term board ai_color_is_white
   + center_control_term board ai_color_is_white
   + development_term board ai_color_is_white
   + rook_files_term board ai_color_is_white
   + passed_pawn_term board ai_color_is_white
   + knight_outpost_term board ai_color_is_white)%Q.

(** [calculate_mvl_lva]: victim value minus attacker value for a
    capture with both pieces on the board, 0 otherwise. *)
Definition calculate_mvl_lva (board : Board) (move : Move) : Z :=
  if negb (is_capture board move) then 0
  else
    match piece_at board (to_square move), piece_at board (from_square move) with
    | Some victim_piece, Some attacker_piece =>
      PIECE_VALUES (piece_type victim_piece) - PIECE_VALUES (piece_type attacker_piece)
    | _, _ => 0
    end.

End Evaluator.

(** ** Scores of the search: floats with the two infinities *)

Inductive Score := NegInf | Fin (q : Q) | PosInf.

(** [-x]. *)
Definition score_neg (x : Score) : Score :=
  match x with
  | NegInf => PosInf
  | Fin q => Fin (- q)
  | PosInf => NegInf
  end.

(** [x < y]. *)
Definition score_ltb (x y : Score) : bool :=
  match x, y with
  | _, NegInf => false
  | NegInf, _ => true
  | PosInf, _ => false
  | Fin _, PosInf => true
  | Fin p, Fin q => negb (Qle_bool q p)
  end.

(** [x <= y]. *)
Definition score_leb (x y : Score) : bool := negb (score_ltb y x).

(** Numeric equality of scores (the same float). *)
Definition score_eqb (x y : Score) : bool := score_leb x y && score_leb y x.

(** [max(x, y)] and [min(x, y)]: Python returns the first argument on a tie. *)
Definition score_max (x y : Score) : Score := if score_ltb x y then y else x.
Definition score_min (x y : Score) : Score := if score_ltb y x then y else x.

Definition MATE : Q := 1000000.

(** ** The transposition table *)

Inductive Flag := TT_EXACT | TT_LOWERBOUND | TT_UPPERBOUND.

Definition Flag_eqb (a b : Flag) : bool :=
  match a, b with
  | TT_EXACT, TT_EXACT | TT_LOWERBOUND, TT_LOWERBOUND
  | TT_UPPERBOUND, TT_UPPERBOUND => true
  | _, _ => false
  end.

(** An entry [(stored_depth, stored_score, flag)]. *)
Definition Entry : Type := Z * Score * Flag.

Abbreviation Table := (gmap string Entry).

(** The lookup that opens [minimax]: the stored score when the entry may
    be returned, [None] when the search goes on. *)
Definition tt_probe (transposition_table : Table) (key : string)
           (depth : Z) (alpha beta : Score) : option Score :=
  match transposition_table !! key with
  | Some (stored_depth, stored_score, flag) =>
    if depth <=? stored_depth then
      if Flag_eqb flag TT_EXACT then Some stored_score
      else if Flag_eqb flag TT_LOWERBOUND && score_leb beta stored_score
      then Some stored_score
      else if Flag_eqb flag TT_UPPERBOUND && score_leb stored_score alpha
      then Some stored_score
      else None
    else None
  | None => None
  end.

(** ** Move ordering: [list.sort(key=..., reverse=True)]

    Python's sort is stable, also with [reverse=True]: moves come out by
    decreasing key, moves of equal key in their original order. *)
Fixpoint insert_desc {A} (key : A -> Z) (x : A) (l : list A) : list A :=
  match l with
  | [] => [x]
  | y :: rest => if key y <=? key x then x :: l else y :: insert_desc key x rest
  end.

Definition sort_desc {A} (key : A -> Z) (l : list A) : list A :=
  fold_right (insert_desc key) [] l.

(** [x] may stand before [y] in a list sorted by decreasing key. *)
Definition key_ge {A} (key : A -> Z) (x y : A) : Prop := key y <= key x.

(** ** Search state and effects

    The search mutates two objects: the board it was handed and the
    global [transposition_table].  A computation takes the state and
    returns a value or a raised exception together with the state left
    behind. *)
Record State (Board : Type) := mkState {
  board : Board;
  transposition_table : Table
}.
Arguments mkState {Board}.
Arguments board {Board}.
Arguments transposition_table {Board}.

Definition M (Board A : Type) : Type := State Board -> (Exn + A) * State Board.

Definition ret {Board A} (a : A) : M Board A := fun st => (inr a, st).

Definition raise {Board A} (e : Exn) : M Board A := fun st => (inl e, st).

Definition bind {Board A B} (m : M Board A) (k : A -> M Board B) : M Board B :=
  fun st =>
    match m st with
    | (inl e, st') => (inl e, st')
    | (inr a, st') => k a st'
    end.

Notation "'let*' x ':=' m 'in' k" := (bind m (fun x => k))
  (at level 10, x pattern, m at level 100, k at level 200).

Definition get_board {Board} : M Board Board := fun st => (inr (board st), st).

Definition get_table {Board} : M Board Table :=
  fun st => (inr (transposition_table st), st).

Definition update_board {Board} (f : Board -> Board) : M Board unit :=
  fun st => (inr tt, mkState (f (board st)) (transposition_table st)).

(** [transposition_table[key] = entry]. *)
Definition tt_store {Board} (key : string) (entry : Entry) : M Board unit :=
  fun st => (inr tt, mkState (board st) (<[key := entry]> (transposition_table st))).

Section Search.
Context {Board : Type} `{RulesProvider Board}.

(** *** Quiescence search *)

(** The loop over the noisy moves; [rec alpha beta] is the recursive call
    [quiescence_search(board, not ai_color_is_white, alpha, beta)]. *)
Fixpoint quiescence_loop (rec : Score -> Score -> M Board Score)
         (noisy_moves : list Move) (alpha beta : Score) : M Board Score :=
  match noisy_moves with
  | [] => ret alpha
  | move :: rest =>
    let* _ := update_board (fun b => push b move) in
    let* r := rec (score_neg beta) (score_neg alpha) in
    let score := score_neg r in
    let* _ := update_board pop in
    if score_leb beta score then ret beta
    else quiescence_loop rec rest (if score_ltb alpha score then score else alpha) beta
  end.

Definition is_noisy (b : Board) (move : Move) : bool :=
  is_capture b move || gives_check b move || bool_decide (is_Some (promotion move)).

(** Python bounds the nesting of calls ([sys.setrecursionlimit(2000)]) and
    raises [RecursionError] beyond it; [fuel] is the number of nested
    calls of the two search functions still available. *)
Fixpoint quiescence_search (fuel : nat) (ai_color_is_white : bool)
         (alpha beta : Score) : M Board Score :=
  match fuel with
  | O => raise RecursionError
  | S fuel' =>
    let* b := get_board in
    let stand_pat := Fin (evaluate_board b ai_color_is_white) in
    if score_leb beta stand_pat then ret beta
    else
      let alpha := if score_ltb alpha stand_pat then stand_pat else alpha in
      let noisy_moves := List.filter (is_noisy b) (legal_moves b) in
      let noisy_moves := sort_desc (calculate_mvl_lva b) noisy_moves in
      quiescence_loop (quiescence_search fuel' (negb ai_color_is_white))
                      noisy_moves alpha beta
  end.

(** *** Minimax with alpha-beta pruning *)

(** The key of the move ordering in [minimax] and [get_ai_move]. *)
Definition ordering_key (b : Board) (move : Move) : Z :=
  calculate_mvl_lva b move + (if gives_check b move then 100 else 0).

(** The loop over the ordered legal moves; [rec alpha beta] is the
    recursive call [minimax(board, depth - 1, not ai_color_is_white, alpha,
    beta)].  Returns [(best_score_for_node, flag)]. *)
Fixpoint minimax_loop (rec : Score -> Score -> M Board Score)
         (ai_color_is_white : bool) (moves : list Move)
         (alpha beta best_score_for_node : Score) (flag : Flag)
  : M Board (Score * Flag) :=
  match moves with
  | [] => ret (best_score_for_node, flag)
  | move :: rest =>
    let* _ := update_board (fun b => push b move) in
    let* score := rec (score_neg beta) (score_neg alpha) in
    let* _ := update_board pop in
    let best_score_for_node :=
      if ai_color_is_white
      then (if score_ltb best_score_for_node score then score else best_score_for_node)
      else (if score_ltb score best_score_for_node then score else best_score_for_node) in
    let alpha := if ai_color_is_white then score_max alpha score else alpha in
    let beta := if ai_color_is_white then beta else score_min beta score in
    if score_leb beta alpha
    then ret (best_score_for_node,
              if ai_color_is_white then TT_LOWERBOUND else TT_UPPERBOUND)
    else minimax_loop rec ai_color_is_white rest alpha beta best_score_for_node flag
  end.

Definition is_draw (b : Board) : bool :=
  is_stalemate b || is_insufficient_material b
  || is_fivefold_repetition b || is_seventyfive_moves b.

(** What [minimax] does once the table lookup has not returned: the
    quiescence search at depth 0, the terminal scores, or the loop over
    the moves; each path stores its entry under [key]. *)
Definition minimax_node (quiesce : bool -> Score -> Score -> M Board Score)
           (rec : Z -> bool -> Score -> Score -> M Board Score)
           (key : string) (depth : Z) (ai_color_is_white : bool)
           (alpha beta : Score) : M Board Score :=
  let* b := get_board in
  if depth =? 0 then
    let* score := quiesce ai_color_is_white alpha beta in
    let* _ := tt_store key (depth, score, TT_EXACT) in
    ret score
  else if is_checkmate b then
    let score :=
      if Bool.eqb (turn b) (color_of ai_color_is_white)
      then Fin MATE else Fin (- MATE) in
    let* _ := tt_store key (depth, score, TT_EXACT) in
    ret score
  else if is_draw b then
    let score := Fin 0 in
    let* _ := tt_store key (depth, score, TT_EXACT) in
    ret score
  else
    let best_score_for_node := if ai_color_is_white then NegInf else PosInf in
    let flag := if ai_color_is_white then TT_LOWERBOUND else TT_UPPERBOUND in
    let legal_moves := sort_desc (ordering_key b) (legal_moves b) in
    let* (best_score_for_node, flag) :=
      minimax_loop (rec (depth - 1) (negb ai_color_is_white)) ai_color_is_white
                   legal_moves alpha beta best_score_for_node flag in
    let* _ := tt_store key (depth, best_score_for_node, flag) in
    ret best_score_for_node.

Fixpoint minimax (fuel : nat) (depth : Z) (ai_color_is_white : bool)
         (alpha beta : Score) : M Board Score :=
  match fuel with
  | O => raise RecursionError
  | S fuel' =>
    let* b := get_board in
    let key := fen b in
    let* table := get_table in
    match tt_probe table key depth alpha beta with
    | Some stored_score => ret stored_score
    | None =>
      minimax_node (quiescence_search fuel') (minimax fuel')
                   key depth ai_color_is_white alpha beta
    end
  end.

End Search.

(** ** The endpoint [get_ai_move] *)

(** A JSON value as the handler sees it: a string, or a value of another
    type, of which only Python's truth value and type name matter. *)
Inductive JsonValue :=
| JString (s : string)
| JOther (truthy : bool) (type_name : string).

(** The JSON object of a request: [data.get(...)] of the three fields,
    [None] for a key that is absent or null. *)
Record Request := mkRequest {
  board_fen : option JsonValue;
  ai_color : option JsonValue;
  difficulty : option JsonValue
}.

Record ResponseMove := mkResponseMove {
  rm_from_square : string;
  rm_to_square : string;
  rm_promotion : option string
}.

(** The JSON answer and the HTTP status; [move] is [None] when the answer
    has no ["move"] key. *)
Record Response := mkResponse {
  success : bool;
  move : option ResponseMove;
  message : string;
  status : Z
}.

Definition failure (msg : string) (code : Z) : Response :=
  mkResponse false None msg code.

(** [not v]: [None] and the empty string are falsy. *)
Definition falsy (v : option JsonValue) : bool :=
  match v with
  | None => true
  | Some (JString str) => String.eqb str EmptyString
  | Some (JOther truthy _) => negb truthy
  end.

Definition ascii_lower (c : ascii) : ascii :=
  let n := nat_of_ascii c in
  if ((65 <=? n) && (n <=? 90))%nat then ascii_of_nat (n + 32) else c.

(** [str.lower()] on ASCII strings. *)
Fixpoint lower (s : string) : string :=
  match s with
  | EmptyString => EmptyString
  | String c rest => String (ascii_lower c) (lower rest)
  end.

(** [chess.SQUARE_NAMES[sq]], the two characters that [uci()] prints for
    a square. *)
Definition square_name (sq : Square) : string :=
  String (ascii_of_nat (97 + Z.to_nat (square_file sq)))
         (String (ascii_of_nat (49 + Z.to_nat (square_rank sq))) EmptyString).

(** [bool(move)]: python-chess makes the null move falsy. *)
Definition move_truthy (m : Move) : bool :=
  negb (from_square m =? 0) || negb (to_square m =? 0)
  || bool_decide (is_Some (promotion m)).

(** The depth of a difficulty; a value that is no string equals none of
    the three labels. *)
Definition depth_of_difficulty (difficulty : JsonValue) : Z :=
  match difficulty with
  | JString label =>
    if String.eqb label "easy" then 1
    else if String.eqb label "intermediate" then 2
    else if String.eqb label "hard" then 3
    else 2
  | JOther _ _ => 2
  end.

(** Reading an attribute that the value's type does not have. *)
Definition attribute_error (type_name attribute : string) : Exn :=
  mkExn "AttributeError"
        ("'" +:+ type_name +:+ "' object has no attribute '" +:+ attribute +:+ "'").

(** [best_move.promotion] is an integer in python-chess, so reading its
    [.name] raises. *)
Definition promotion_name_error : Exn := attribute_error "int" "name".

(** What the search at the root produces. *)
Inductive Outcome :=
| NoLegalMoves
| Searched (best_score : Score) (best_move : option Move).

Section Endpoint.
Context {Board : Type} `{RulesProvider Board}.

(** The loop over the ordered root moves; [search] is the call
    [minimax(board, depth - 1, not ai_is_white, -math.inf, math.inf)]. *)
Fixpoint root_loop (search : M Board Score) (ai_is_white : bool)
         (moves : list Move) (best_score : Score) (best_move : option Move)
  : M Board (Score * option Move) :=
  match moves with
  | [] => ret (best_score, best_move)
  | move :: rest =>
    let* _ := update_board (fun b => push b move) in
    let* score := search in
    let* _ := update_board pop in
    let better :=
      if ai_is_white then score_ltb best_score score else score_ltb score best_score in
    if better
    then root_loop search ai_is_white rest score (Some move)
    else root_loop search ai_is_white rest best_score best_move
  end.

(** From [transposition_table.clear()] to the end of the loop. *)
Definition root_search (fuel : nat) (depth : Z) (ai_is_white : bool) : M Board Outcome :=
  let* _ := (fun st => (inr tt, mkState (board st) ∅)) in
  let* b := get_board in
  let best_score := if ai_is_white then NegInf else PosInf in
  let legal_moves_for_ai := legal_moves b in
  match legal_moves_for_ai with
  | [] => ret NoLegalMoves
  | _ =>
    let legal_moves_for_ai := sort_desc (ordering_key b) legal_moves_for_ai in
    let* (best_score, best_move) :=
      root_loop (minimax fuel (depth - 1) (negb ai_is_white) NegInf PosInf)
                ai_is_white legal_moves_for_ai best_score None in
    ret (Searched best_score best_move)
  end.

(** [chess.Board(board_fen)]: a value that is no string has no [split]. *)
Definition Board_of_json (board_fen : JsonValue) : Exn + Board :=
  match board_fen with
  | JString fen_str => Board_of_fen fen_str
  | JOther _ type_name => inl (attribute_error type_name "split")
  end.

(** The rest of the [try] block once the board is built and
    [ai_color_str.lower()] has returned [color]. *)
Definition handle_board (fuel : nat) (b : Board) (color : string)
           (difficulty : JsonValue) (table : Table) : (Exn + Response) * Table :=
  let ai_is_white := String.eqb color "white" in
  if is_game_over b then
    (inr (failure "Game is already over (checkmate, stalemate, or draw)" 200), table)
  else
    let expected_turn := if String.eqb color "white" then WHITE else BLACK in
    if negb (Bool.eqb (turn b) expected_turn) then
      (inr (failure "Not AI's turn to move." 200), table)
    else
      let depth := depth_of_difficulty difficulty in
      match root_search fuel depth ai_is_white (mkState b table) with
      | (inl e, st) => (inl e, transposition_table st)
      | (inr NoLegalMoves, st) =>
        (inr (failure "No legal moves for AI (checkmate/stalemate)" 200),
         transposition_table st)
      | (inr (Searched _ best_move), st) =>
        match best_move with
        | Some m =>
          if move_truthy m then
            match promotion m with
            | Some _ => (inl promotion_name_error, transposition_table st)
            | None =>
              (inr (mkResponse true
                      (Some (mkResponseMove (square_name (from_square m))
                                            (square_name (to_square m)) None))
                      "AI found a move." 200),
               transposition_table st)
            end
          else (inr (failure "AI could not find a move." 200), transposition_table st)
        | None => (inr (failure "AI could not find a move." 200), transposition_table st)
        end
      end.

(** The body of the [try] block: a response, or the exception that
    reaches [except Exception].  The global table is threaded through. *)
Definition handle (fuel : nat) (board_fen ai_color_str difficulty : JsonValue)
           (table : Table) : (Exn + Response) * Table :=
  match Board_of_json board_fen with
  | inl e => (inl e, table)
  | inr b =>
    match ai_color_str with
    | JOther _ type_name => (inl (attribute_error type_name "lower"), table)
    | JString color_str => handle_board fuel b (lower color_str) difficulty table
    end
  end.

(** [get_ai_move] on a body that is a JSON object, from line 688 on: the
    field check, the [try] block, and the handler of
    [except Exception as e], which answers [str(e)] with status 500. *)
Definition get_ai_move (fuel : nat) (data : Request) (table : Table)
  : Response * Table :=
  if falsy (board_fen data) || falsy (ai_color data) || falsy (difficulty data) then
    (failure "Missing board_fen, ai_color, or difficulty" 400, table)
  else
    match board_fen data, ai_color data, difficulty data with
    | Some fen_value, Some ai_color_str, Some difficulty_value =>
      match handle fuel fen_value ai_color_str difficulty_value table with
      | (inr response, table') => (response, table')
      | (inl e, table') => (failure (exn_message e) 500, table')
      end
    | _, _, _ => (failure "Missing board_fen, ai_color, or difficulty" 400, table)
    end.



End Endpoint.

(** ** A model of the python-chess board

    [app.py] leaves the rules of chess to python-chess.  To run the engine
    on real positions, this module models the board of python-chess for
    standard chess: piece placement, side to move, castling rights,
    en-passant square, the two move counters and the stack of earlier
    states that [pop] restores.  Moves are generated in python-chess's
    order (pieces from the highest square down, castling, pawn captures,
    single and double pushes, en passant; king moves first when in
    check), since the stable sort of the engine keeps that order among
    moves of equal key.  A move is legal when it is pseudo-legal and the
    mover's king is not attacked once it is played.

    Outside standard play the model is simpler than the library: [pop]
    on an empty stack and [push] of a move from an empty square leave the
    pieces alone where Python raises, the FEN reader takes plain decimal
    counters, and repetition is counted over the whole stack. *)
Module PyChess.

Record Position := mkPosition {
  pieces : list (option Piece);
  side : Color;
  castling_rights : list Square;
  ep_square : option Square;
  halfmove_clock : Z;
  fullmove : Z
}.

Record Board := mkBoard {
  position : Position;
  stack : list Position
}.

Definition piece_on (pcs : list (option Piece)) (sq : Square) : option Piece :=
  if (0 <=? sq) && (sq <? 64) then nth (Z.to_nat sq) pcs None else None.

Definition put (pcs : list (option Piece)) (sq : Square) (p : option Piece)
  : list (option Piece) :=
  <[Z.to_nat sq := p]> pcs.

Definition occupied (pcs : list (option Piece)) (sq : Square) : bool :=
  bool_decide (is_Some (piece_on pcs sq)).

Definition occupied_by (pcs : list (option Piece)) (c : Color) (sq : Square) : bool :=
  match piece_on pcs sq with
  | Some p => Bool.eqb (color p) c
  | None => false
  end.

Definition has_piece (pcs : list (option Piece)) (sq : Square) (p : Piece) : bool :=
  match piece_on pcs sq with
  | Some q => Piece_eqb q p
  | None => false
  end.

(** The squares strictly between two squares of one rank, file or
    diagonal; empty when they are not aligned. *)
Definition between (a b : Square) : list Square :=
  let df := square_file b - square_file a in
  let dr := square_rank b - square_rank a in
  if (df =? 0) || (dr =? 0) || (Z.abs df =? Z.abs dr) then
    map (fun k => square (square_file a + k * Z.sgn df) (square_rank a + k * Z.sgn dr))
        (range 1 (Z.max (Z.abs df) (Z.abs dr)))
  else [].

Definition path_clear (pcs : list (option Piece)) (a b : Square) : bool :=
  forallb (fun s => negb (occupied pcs s)) (between a b).

(** The piece on [from] attacks [to] (whatever stands on [to]). *)
Definition attacks (pcs : list (option Piece)) (from to : Square) : bool :=
  match piece_on pcs from with
  | None => false
  | Some p =>
    let df := Z.abs (square_file to - square_file from) in
    let dr := square_rank to - square_rank from in
    let diagonal := (df =? Z.abs dr) && negb (df =? 0) && path_clear pcs from to in
    let straight := xorb (df =? 0) (dr =? 0) && path_clear pcs from to in
    match piece_type p with
    | PAWN => (dr =? (if color p then 1 else -1)) && (df =? 1)
    | KNIGHT => ((df =? 1) && (Z.abs dr =? 2)) || ((df =? 2) && (Z.abs dr =? 1))
    | BISHOP => diagonal
    | ROOK => straight
    | QUEEN => diagonal || straight
    | KING => Z.max df (Z.abs dr) =? 1
    end
  end.

(** [attackers_mask(color, square)], as the list of its squares. *)
Definition attackers_on (pcs : list (option Piece)) (c : Color) (sq : Square)
  : list Square :=
  List.filter (fun from => occupied_by pcs c from && attacks pcs from sq) SQUARES.

Definition attacked_on (pcs : list (option Piece)) (c : Color) (sq : Square) : bool :=
  existsb (fun from => occupied_by pcs c from && attacks pcs from sq) SQUARES.

(** [king(color)]: the highest square holding a king of that colour. *)
Definition king_on (pcs : list (option Piece)) (c : Color) : option Square :=
  head (List.filter (fun sq => has_piece pcs sq (mkPiece KING c)) (rev SQUARES)).

Definition in_check (pcs : list (option Piece)) (c : Color) : bool :=
  match king_on pcs c with
  | Some k => attacked_on pcs (negb c) k
  | None => false
  end.

(** [clean_castling_rights()] for standard chess: a right is the corner
    square of a rook that stands there with its king on the e-file. *)
Definition clean_castling_rights (pos : Position) : list Square :=
  List.filter (fun r =>
      let c := r <? 8 in
      ((r =? 0) || (r =? 7) || (r =? 56) || (r =? 63))
      && has_piece (pieces pos) r (mkPiece ROOK c)
      && has_piece (pieces pos) (if c then 4 else 60) (mkPiece KING c))
    (castling_rights pos).

Definition is_en_passant (pos : Position) (m : Move) : bool :=
  match ep_square pos with
  | Some ep =>
    (ep =? to_square m)
    && match piece_on (pieces pos) (from_square m) with
       | Some p => PieceType_eqb (piece_type p) PAWN
       | None => false
       end
    && ((Z.abs (to_square m - from_square m) =? 7)
        || (Z.abs (to_square m - from_square m) =? 9))
    && negb (occupied (pieces pos) (to_square m))
  | None => false
  end.

Definition has_type (pcs : list (option Piece)) (sq : Square) (pt : PieceType) : bool :=
  match piece_on pcs sq with
  | Some q => PieceType_eqb (piece_type q) pt
  | None => false
  end.

(** A king move from e1 or e8 two files aside, onto a square without a
    rook, is read as castling with the piece on the corner if that piece
    is the mover's: [(corner, king_to, rook_to)]. *)
Definition castling_rook (pos : Position) (m : Move) : option (Square * Square * Square) :=
  let pcs := pieces pos in
  let c := side pos in
  let from := from_square m in
  let back := if c then 0 else 56 in
  if ((from =? 4) || (from =? 60)) && has_type pcs from KING then
    if (to_square m =? from + 2) && negb (has_type pcs (from + 2) ROOK)
       && occupied_by pcs c (from + 3)
    then Some (from + 3, back + 6, back + 5)
    else if (to_square m =? from - 2) && negb (has_type pcs (from - 2) ROOK)
            && occupied_by pcs c (from - 4)
    then Some (from - 4, back + 2, back + 3)
    else None
  else None.

(** The piece placement after [m] is played. *)
Definition move_pieces (pos : Position) (m : Move) : list (option Piece) :=
  let pcs := pieces pos in
  let c := side pos in
  match piece_on pcs (from_square m) with
  | None => pcs
  | Some p =>
    match castling_rook pos m with
    | Some (corner, king_to, rook_to) =>
      put (put (put (put pcs (from_square m) None) corner None)
               king_to (Some (mkPiece KING c)))
          rook_to (Some (mkPiece ROOK c))
    | None =>
      let pcs1 := put pcs (from_square m) None in
      let pcs2 :=
        if is_en_passant pos m
        then put pcs1 (to_square m + (if c then -8 else 8)) None
        else pcs1 in
      let placed :=
        match promotion m with
        | Some pt => mkPiece pt c
        | None => mkPiece (piece_type p) c
        end in
      put pcs2 (to_square m) (Some placed)
    end
  end.

(** *** Move generation *)

Definition with_promotions (from to : Square) : list Move :=
  if (square_rank to =? 0) || (square_rank to =? 7) then
    [mkMove from to (Some QUEEN); mkMove from to (Some ROOK);
     mkMove from to (Some BISHOP); mkMove from to (Some KNIGHT)]
  else [mkMove from to None].

Definition squares_down : list Square := rev SQUARES.

Definition piece_moves (pos : Position) (kings : bool) : list Move :=
  let pcs := pieces pos in
  flat_map (fun from =>
      match piece_on pcs from with
      | Some p =>
        if Bool.eqb (color p) (side pos)
           && negb (PieceType_eqb (piece_type p) PAWN)
           && (kings || negb (PieceType_eqb (piece_type p) KING))
        then map (fun to => mkMove from to None)
                 (List.filter (fun to => attacks pcs from to
                                         && negb (occupied_by pcs (side pos) to))
                              squares_down)
        else []
      | None => []
      end) squares_down.

Definition castling_moves (pos : Position) : list Move :=
  let pcs := pieces pos in
  let c := side pos in
  let home := if c then 4 else 60 in
  flat_map (fun rook =>
      if Bool.eqb (rook <? 8) c then
        let a_side := rook <? home in
        let king_to := if a_side then home - 2 else home + 2 in
        let rook_to := if a_side then home - 1 else home + 1 in
        let without_king := put pcs home None in
        let after := put (put without_king rook None) rook_to (Some (mkPiece ROOK c)) in
        let must_be_empty :=
          between home king_to ++ between rook rook_to ++ [king_to; rook_to] in
        if forallb (fun s => negb (occupied (put without_king rook None) s)) must_be_empty
           && forallb (fun s => negb (attacked_on without_king (negb c) s))
                      (home :: between home king_to)
           && negb (attacked_on after (negb c) king_to)
        then [mkMove home king_to None] else []
      else [])
    (rev (List.filter (fun r => existsb (Z.eqb r) (clean_castling_rights pos)) SQUARES)).

Definition is_own_pawn (pos : Position) (sq : Square) : bool :=
  has_piece (pieces pos) sq (mkPiece PAWN (side pos)).

Definition pawn_captures (pos : Position) : list Move :=
  let pcs := pieces pos in
  flat_map (fun from =>
      if is_own_pawn pos from then
        flat_map (with_promotions from)
          (List.filter (fun to => attacks pcs from to
                                  && occupied_by pcs (negb (side pos)) to)
                       squares_down)
      else []) squares_down.

Definition single_pushes (pos : Position) : list Move :=
  let back := if side pos then -8 else 8 in
  flat_map (fun to =>
      if is_own_pawn pos (to + back) && negb (occupied (pieces pos) to)
      then with_promotions (to + back) to else []) squares_down.

Definition double_pushes (pos : Position) : list Move :=
  let back := if side pos then -8 else 8 in
  flat_map (fun to =>
      if is_own_pawn pos (to + 2 * back)
         && negb (occupied (pieces pos) (to + back))
         && negb (occupied (pieces pos) to)
         && (if side pos
             then (square_rank to =? 2) || (square_rank to =? 3)
             else (square_rank to =? 5) || (square_rank to =? 4))
      then [mkMove (to + 2 * back) to None] else []) squares_down.

Definition ep_captures (pos : Position) : list Move :=
  match ep_square pos with
  | Some ep =>
    if (ep =? 0) || occupied (pieces pos) ep then []
    else
      map (fun from => mkMove from ep None)
          (List.filter (fun from =>
               is_own_pawn pos from && attacks (pieces pos) from ep
               && (square_rank from =? (if side pos then 4 else 3)))
             squares_down)
  | None => []
  end.

Definition pseudo_legal_moves (pos : Position) (kings : bool) : list Move :=
  piece_moves pos kings
  ++ (if kings then castling_moves pos else [])
  ++ pawn_captures pos ++ single_pushes pos ++ double_pushes pos ++ ep_captures pos.

(** The mover's king is not attacked once the move is played. *)
Definition is_safe (pos : Position) (m : Move) : bool :=
  negb (in_check (move_pieces pos m) (side pos)).

Definition king_moves (pos : Position) (k : Square) : list Move :=
  map (fun to => mkMove k to None)
      (List.filter (fun to => attacks (pieces pos) k to
                              && negb (occupied_by (pieces pos) (side pos) to))
                   squares_down).

Definition generate_legal_moves (pos : Position) : list Move :=
  match king_on (pieces pos) (side pos) with
  | None => pseudo_legal_moves pos true
  | Some k =>
    if attacked_on (pieces pos) (negb (side pos)) k
    then List.filter (is_safe pos) (king_moves pos k ++ pseudo_legal_moves pos false)
    else List.filter (is_safe pos) (pseudo_legal_moves pos true)
  end.

(** *** Playing and taking back a move *)

(** [is_zeroing]: a pawn move or a capture resets the half-move clock. *)
Definition is_zeroing (pos : Position) (m : Move) : bool :=
  let pcs := pieces pos in
  has_type pcs (from_square m) PAWN || has_type pcs (to_square m) PAWN
  || occupied_by pcs (negb (side pos)) (from_square m)
  || occupied_by pcs (negb (side pos)) (to_square m).

Definition position_is_capture (pos : Position) (m : Move) : bool :=
  occupied_by (pieces pos) (negb (side pos)) (from_square m)
  || occupied_by (pieces pos) (negb (side pos)) (to_square m)
  || is_en_passant pos m.

Definition push_position (pos : Position) (m : Move) : Position :=
  let pcs := pieces pos in
  let c := side pos in
  let from := from_square m in
  let to := to_square m in
  let next_fullmove := if c then fullmove pos else fullmove pos + 1 in
  match piece_on pcs from with
  | None =>
    mkPosition pcs (negb c) (clean_castling_rights pos) None
               (halfmove_clock pos + 1) next_fullmove
  | Some p =>
    let touched_corner :=
      match castling_rook pos m with
      | Some (corner, _, _) => corner
      | None => to
      end in
    let rights :=
      List.filter (fun r =>
          negb (r =? from) && negb (r =? touched_corner)
          && negb (PieceType_eqb (piece_type p) KING && Bool.eqb (r <? 8) c))
        (clean_castling_rights pos) in
    let next_ep :=
      if PieceType_eqb (piece_type p) PAWN then
        if (to - from =? 16) && (square_rank from =? 1) then Some (from + 8)
        else if (to - from =? -16) && (square_rank from =? 6) then Some (from - 8)
        else None
      else None in
    mkPosition (move_pieces pos m) (negb c) rights next_ep
               (if is_zeroing pos m then 0 else halfmove_clock pos + 1)
               next_fullmove
  end.

(** [board.push(move)]: the state before the move goes on the stack. *)
Definition board_push (b : Board) (m : Move) : Board :=
  mkBoard (push_position (position b) m) (position b :: stack b).

(** [board.pop()]: the state on top of the stack is restored. *)
Definition board_pop (b : Board) : Board :=
  match stack b with
  | previous :: rest => mkBoard previous rest
  | [] => b
  end.

Definition board_with_turn (b : Board) (c : Color) : Board :=
  let pos := position b in
  mkBoard (mkPosition (pieces pos) c (castling_rights pos) (ep_square pos)
                      (halfmove_clock pos) (fullmove pos))
          (stack b).

(** *** Status of a position *)

Definition position_is_check (pos : Position) : bool := in_check (pieces pos) (side pos).

Definition no_legal_move (pos : Position) : bool :=
  match generate_legal_moves pos with
  | [] => true
  | _ => false
  end.

Definition position_is_checkmate (pos : Position) : bool :=
  position_is_check pos && no_legal_move pos.

Definition position_is_stalemate (pos : Position) : bool :=
  negb (position_is_check pos) && no_legal_move pos.

Definition squares_with (pcs : list (option Piece)) (f : Piece -> bool) : list Square :=
  List.filter (fun sq => match piece_on pcs sq with Some p => f p | None => false end)
              SQUARES.

Definition is_dark (sq : Square) : bool := Z.even (square_file sq + square_rank sq).

(** [has_insufficient_material(color)]. *)
Definition has_insufficient_material (pcs : list (option Piece)) (c : Color) : bool :=
  let of_type pt := fun p : Piece => PieceType_eqb (piece_type p) pt in
  let ours f := squares_with pcs (fun p => Bool.eqb (color p) c && f p) in
  let theirs f := squares_with pcs (fun p => Bool.eqb (color p) (negb c) && f p) in
  let none {A} (l : list A) := match l with [] => true | _ => false end in
  if negb (none (ours (fun p => of_type PAWN p || of_type ROOK p || of_type QUEEN p)))
  then false
  else if negb (none (ours (of_type KNIGHT))) then
    (length (ours (fun _ => true)) <=? 2)%nat
    && none (theirs (fun p => negb (of_type KING p) && negb (of_type QUEEN p)))
  else if negb (none (ours (of_type BISHOP))) then
    let bishops := squares_with pcs (of_type BISHOP) in
    (forallb is_dark bishops || forallb (fun sq => negb (is_dark sq)) bishops)
    && none (squares_with pcs (of_type PAWN))
    && none (squares_with pcs (of_type KNIGHT))
  else true.

Definition position_is_insufficient_material (pos : Position) : bool :=
  has_insufficient_material (pieces pos) WHITE
  && has_insufficient_material (pieces pos) BLACK.

Definition position_is_seventyfive_moves (pos : Position) : bool :=
  (150 <=? halfmove_clock pos) && negb (no_legal_move pos).

Definition has_legal_en_passant (pos : Position) : bool :=
  existsb (is_en_passant pos) (generate_legal_moves pos).

Definition option_eqb {A} (eqb : A -> A -> bool) (x y : option A) : bool :=
  match x, y with
  | Some a, Some b => eqb a b
  | None, None => true
  | _, _ => false
  end.

Fixpoint list_eqb {A} (eqb : A -> A -> bool) (l k : list A) : bool :=
  match l, k with
  | [], [] => true
  | a :: l', b :: k' => eqb a b && list_eqb eqb l' k'
  | _, _ => false
  end.

(** Two positions with the same [_transposition_key()]: placement, side
    to move, cleaned castling rights and legal en-passant square. *)
Definition same_transposition (p q : Position) : bool :=
  list_eqb (option_eqb Piece_eqb) (pieces p) (pieces q)
  && Bool.eqb (side p) (side q)
  && list_eqb Z.eqb (clean_castling_rights p) (clean_castling_rights q)
  && option_eqb Z.eqb (if has_legal_en_passant p then ep_square p else None)
                      (if has_legal_en_passant q then ep_square q else None).

(** [is_fivefold_repetition()]: the position has occurred five times,
    counting the states on the stack. *)
Definition board_is_fivefold_repetition (b : Board) : bool :=
  (5 <=? S (length (List.filter (same_transposition (position b)) (stack b))))%nat.

Definition board_is_game_over (b : Board) : bool :=
  position_is_checkmate (position b)
  || position_is_insufficient_material (position b)
  || no_legal_move (position b)
  || position_is_seventyfive_moves (position b)
  || board_is_fivefold_repetition b.

(** *** FEN: [board.fen()] and [chess.Board(fen)] *)

Definition piece_symbol (p : Piece) : string :=
  match piece_type p, color p with
  | PAWN, true => "P" | KNIGHT, true => "N" | BISHOP, true => "B"
  | ROOK, true => "R" | QUEEN, true => "Q" | KING, true => "K"
  | PAWN, false => "p" | KNIGHT, false => "n" | BISHOP, false => "b"
  | ROOK, false => "r" | QUEEN, false => "q" | KING, false => "k"
  end.

Definition piece_of_symbol (ch : ascii) : option Piece :=
  let make pt := Some (mkPiece pt (negb (Ascii.eqb (ascii_lower ch) ch))) in
  let l := ascii_lower ch in
  if Ascii.eqb l "p" then make PAWN
  else if Ascii.eqb l "n" then make KNIGHT
  else if Ascii.eqb l "b" then make BISHOP
  else if Ascii.eqb l "r" then make ROOK
  else if Ascii.eqb l "q" then make QUEEN
  else if Ascii.eqb l "k" then make KING
  else None.

(** One rank of the placement field: pieces, and runs of empty squares
    written as their length. *)
Fixpoint rank_fen (row : list (option Piece)) (empty : Z) : string :=
  let flush := if empty =? 0 then EmptyString else pretty empty in
  match row with
  | [] => flush
  | Some p :: rest => flush +:+ piece_symbol p +:+ rank_fen rest 0
  | None :: rest => rank_fen rest (empty + 1)
  end.

Definition rank_pieces (pcs : list (option Piece)) (r : Z) : list (option Piece) :=
  map (fun f => piece_on pcs (square f r)) (range 0 8).

Definition placement_fen (pcs : list (option Piece)) : string :=
  String.concat "/" (map (fun r => rank_fen (rank_pieces pcs r) 0) (rev (range 0 8))).

Definition castling_fen (pos : Position) : string :=
  let rights := clean_castling_rights pos in
  let flag sq (s : string) := if existsb (Z.eqb sq) rights then s else EmptyString in
  let s := flag 7 "K" +:+ flag 0 "Q" +:+ flag 63 "k" +:+ flag 56 "q" in
  if String.eqb s EmptyString then "-" else s.

Definition position_fen (pos : Position) : string :=
  String.concat " "
    [ placement_fen (pieces pos);
      if side pos then "w" else "b";
      castling_fen pos;
      match ep_square pos with
      | Some ep => if has_legal_en_passant pos then square_name ep else "-"
      | None => "-"
      end;
      pretty (halfmove_clock pos);
      pretty (fullmove pos) ].

(** [s.split(sep)] for a one-character test: the pieces between
    separators, empty ones included. *)
Fixpoint split_where (is_sep : ascii -> bool) (s : string) (current : string)
  : list string :=
  match s with
  | EmptyString => [current]
  | String ch rest =>
    if is_sep ch then current :: split_where is_sep rest EmptyString
    else split_where is_sep rest (current +:+ String ch EmptyString)
  end.

Definition is_space (ch : ascii) : bool :=
  let n := nat_of_ascii ch in ((n =? 32) || ((9 <=? n) && (n <=? 13)))%nat.

(** [s.split()]: split on runs of whitespace. *)
Definition split_whitespace (s : string) : list string :=
  List.filter (fun part => negb (String.eqb part EmptyString))
              (split_where is_space s EmptyString).

Definition value_error (what fen_str : string) : Exn :=
  mkExn "ValueError" (what +:+ ": '" +:+ fen_str +:+ "'").

Definition digit_value (ch : ascii) : option Z :=
  let n := nat_of_ascii ch in
  if ((48 <=? n) && (n <=? 57))%nat then Some (Z.of_nat (n - 48)) else None.

Fixpoint parse_digits (s : string) (acc : Z) : option Z :=
  match s with
  | EmptyString => Some acc
  | String ch rest =>
    match digit_value ch with
    | Some d => parse_digits rest (acc * 10 + d)
    | None => None
    end
  end.

(** [int(s)] on an optional sign and decimal digits. *)
Definition parse_int (s : string) : option Z :=
  match s with
  | EmptyString => None
  | String ch rest =>
    if Ascii.eqb ch "-" then
      match rest with
      | EmptyString => None
      | _ => option_map Z.opp (parse_digits rest 0)
      end
    else if Ascii.eqb ch "+" then
      match rest with
      | EmptyString => None
      | _ => parse_digits rest 0
      end
    else parse_digits s 0
  end.

(** One row of the placement field; the error is the clause of
    [_set_board_fen] that rejects it. *)
Fixpoint parse_row (row : string) (previous_was_digit : bool)
         (acc : list (option Piece)) : string + list (option Piece) :=
  match row with
  | EmptyString =>
    if (length acc =? 8)%nat then inr acc
    else inl "expected 8 columns per row in position part of fen"
  | String ch rest =>
    match digit_value ch with
    | Some d =>
      if (1 <=? d) && (d <=? 8) then
        if previous_was_digit
        then inl "two subsequent digits in position part of fen"
        else parse_row rest true (acc ++ repeat None (Z.to_nat d))
      else inl "invalid character in position part of fen"
    | None =>
      match piece_of_symbol ch with
      | Some p => parse_row rest false (acc ++ [Some p])
      | None => inl "invalid character in position part of fen"
      end
    end
  end.

Fixpoint parse_rows (rows : list string) : string + list (list (option Piece)) :=
  match rows with
  | [] => inr []
  | row :: rest =>
    match parse_row row false [] with
    | inl e => inl e
    | inr r =>
      match parse_rows rest with
      | inl e => inl e
      | inr rs => inr (r :: rs)
      end
    end
  end.

(** The placement field: eight rows, the eighth rank first. *)
Definition parse_placement (part : string) : string + list (option Piece) :=
  let rows := split_where (Ascii.eqb "/") part EmptyString in
  if negb (length rows =? 8)%nat
  then inl "expected 8 rows in position part of fen"
  else
    match parse_rows rows with
    | inl e => inl e
    | inr rs => inr (List.concat (rev rs))
    end.

Definition in_string (ch : ascii) (s : string) : bool :=
  existsb (Ascii.eqb ch) (list_ascii_of_string s).

(** The castling field: ["-"], or at most two of [KQA-H] followed by at
    most two of [kqa-h].  Each letter names the corner (or the file) of a
    rook. *)
Definition parse_castling (part : string) : option (list Square) :=
  if String.eqb part "-" then Some []
  else
    let chars := list_ascii_of_string part in
    let uppers := List.filter (fun ch => in_string ch "KQABCDEFGH") chars in
    let lowers := List.filter (fun ch => in_string ch "kqabcdefgh") chars in
    if list_eqb Ascii.eqb chars (uppers ++ lowers)
       && (length uppers <=? 2)%nat && (length lowers <=? 2)%nat
    then
      Some (map (fun ch =>
                   let back := if in_string ch "KQABCDEFGH" then 0 else 56 in
                   let l := ascii_lower ch in
                   if Ascii.eqb l "k" then back + 7
                   else if Ascii.eqb l "q" then back
                   else back + Z.of_nat (nat_of_ascii l - 97)) chars)
    else None.

Definition parse_square (part : string) : option Square :=
  head (List.filter (fun sq => String.eqb (square_name sq) part) SQUARES).

(** [chess.Board(fen)]. *)
Definition board_of_fen (fen_str : string) : Exn + Board :=
  let field (n : nat) := nth_error (split_whitespace fen_str) n in
  match field 0%nat with
  | None => inl (mkExn "ValueError" "empty fen")
  | Some board_part =>
    match (match field 1%nat with
           | None => Some WHITE
           | Some part =>
             if String.eqb part "w" then Some WHITE
             else if String.eqb part "b" then Some BLACK else None
           end) with
    | None => inl (value_error "expected 'w' or 'b' for turn part of fen" fen_str)
    | Some turn_part =>
      match parse_castling (default "-" (field 2%nat)) with
      | None => inl (value_error "invalid castling part in fen" fen_str)
      | Some rights =>
        match (match field 3%nat with
               | None => Some None
               | Some part =>
                 if String.eqb part "-" then Some None
                 else option_map Some (parse_square part)
               end) with
        | None => inl (value_error "invalid en passant part in fen" fen_str)
        | Some ep =>
          match (match field 4%nat with None => Some 0 | Some part => parse_int part end) with
          | None => inl (value_error "invalid half-move clock in fen" fen_str)
          | Some halfmove =>
            if halfmove <? 0
            then inl (value_error "half-move clock cannot be negative" fen_str)
            else
              match (match field 5%nat with None => Some 1 | Some part => parse_int part end) with
              | None => inl (value_error "invalid fullmove number in fen" fen_str)
              | Some fullmove_part =>
                if fullmove_part <? 0
                then inl (value_error "fullmove number cannot be negative" fen_str)
                else
                  match field 6%nat with
                  | Some _ =>
                    inl (value_error "fen string has more parts than expected" fen_str)
                  | None =>
                    match parse_placement board_part with
                    | inl what => inl (value_error what board_part)
                    | inr pcs =>
                      inr (mkBoard (mkPosition pcs turn_part rights ep halfmove
                                               (Z.max fullmove_part 1)) [])
                    end
                  end
              end
          end
        end
      end
    end
  end.

(** *** The rules provider of python-chess *)
#[global] Instance rules : RulesProvider Board := {|
  Board_of_fen := board_of_fen;
  fen := fun b => position_fen (position b);
  piece_at := fun b sq => piece_on (pieces (position b)) sq;
  king := fun b c => king_on (pieces (position b)) c;
  turn := fun b => side (position b);
  with_turn := board_with_turn;
  fullmove_number := fun b => fullmove (position b);
  legal_moves := fun b => generate_legal_moves (position b);
  is_attacked_by := fun b c sq => attacked_on (pieces (position b)) c sq;
  attackers := fun b c sq => attackers_on (pieces (position b)) c sq;
  is_capture := fun b m => position_is_capture (position b) m;
  gives_check := fun b m => position_is_check (push_position (position b) m);
  is_check := fun b => position_is_check (position b);
  is_checkmate := fun b => position_is_checkmate (position b);
  is_stalemate := fun b => position_is_stalemate (position b);
  is_insufficient_material := fun b => position_is_insufficient_material (position b);
  is_fivefold_repetition := board_is_fivefold_repetition;
  is_seventyfive_moves := fun b => position_is_seventyfive_moves (position b);
  is_game_over := board_is_game_over;
  push := board_push;
  pop := board_pop
|}.

End PyChess.

(** ** The reference of the alpha-beta equivalence property *)

Section Reference.
Context {Board : Type} `{RulesProvider Board}.

(** The quiescence search of the source, run on its own copy of the
    board with the full window. *)
Definition quiesce_full (fuel : nat) (b : Board) (perspective : bool) : Exn + Score :=
  fst (quiescence_search fuel perspective NegInf PosInf (mkState b ∅)).

Definition bind_exn {A B} (x : Exn + A) (k : A -> Exn + B) : Exn + B :=
  match x with
  | inl e => inl e
  | inr a => k a
  end.

(** The reference of the spec: the unpruned full-width negamax of its
    section 8, written after steps 2 to 5 of its section 4.4 without table
    and without window: quiescence at depth 0, the mate and draw scores, and the
    maximum over all legal moves of the negated score of the child. *)
Fixpoint negamax_full (fuel : nat) (depth : nat) (b : Board) (perspective : bool)
  : Exn + Score :=
  match depth with
  | O => quiesce_full fuel b perspective
  | S depth' =>
    if is_checkmate b then
      inr (if Bool.eqb (turn b) (color_of perspective) then Fin (- MATE) else Fin MATE)
    else if is_draw b then inr (Fin 0)
    else
      fold_left (fun best move =>
          bind_exn best (fun best =>
          bind_exn (negamax_full fuel depth' (push b move) (negb perspective))
                   (fun r => inr (score_max best (score_neg r)))))
        (legal_moves b) (inr NegInf)
  end.

(** Full-width search by absolute colour, as [minimax] branches: the
    maximum of the children's scores for white, the minimum for black,
    nothing negated, no window and no table. *)
Fixpoint minimax_full (fuel : nat) (depth : nat) (b : Board) (ai_color_is_white : bool)
  : Exn + Score :=
  match depth with
  | O => quiesce_full fuel b ai_color_is_white
  | S depth' =>
    if is_checkmate b then
      inr (if Bool.eqb (turn b) (color_of ai_color_is_white) then Fin MATE else Fin (- MATE))
    else if is_draw b then inr (Fin 0)
    else
      fold_left (fun best move =>
          bind_exn best (fun best =>
          bind_exn (minimax_full fuel depth' (push b move) (negb ai_color_is_white))
                   (fun r => inr (if ai_color_is_white
                                  then score_max best r else score_min best r))))
        (legal_moves b) (inr (if ai_color_is_white then NegInf else PosInf))
  end.

(** The root driver as section 4.6 of the spec words it, over a given
    search function: the ordered legal moves, each scored by the search
    at [depth - 1], the first move of extremal score kept (maximal for
    white, minimal for black). *)
Definition root_with (search : Board -> bool -> Exn + Score)
           (b : Board) (ai_is_white : bool) : Exn + (Score * option Move) :=
  fold_left (fun acc move =>
      bind_exn acc (fun '(best_score, best_move) =>
      bind_exn (search (push b move) (negb ai_is_white)) (fun score =>
        if (if ai_is_white then score_ltb best_score score
            else score_ltb score best_score)
        then inr (score, Some move) else inr (best_score, best_move))))
    (sort_desc (ordering_key b) (legal_moves b))
    (inr (if ai_is_white then NegInf else PosInf, None)).

End Reference.

(** ** Positions used below *)
Module Positions.

(** The board of a FEN string (the empty board if it does not parse). *)
Definition board_of (fen_str : string) : PyChess.Board :=
  match PyChess.board_of_fen fen_str with
  | inr b => b
  | inl _ => PyChess.mkBoard (PyChess.mkPosition (repeat None 64) WHITE [] None 0 1) []
  end.

(** Back-rank mate: white, to move, is checkmated by the rook on a1. *)
Definition back_rank_mate : string := "7k/8/8/8/8/8/5PPP/r5K1 w - - 0 1".

(** Black, to move, mates in one with the rook: a2a1. *)
Definition mate_in_one : string := "7k/8/8/8/8/8/r4PPP/6K1 b - - 0 1".

(** Black, to move, is stalemated. *)
Definition stalemate : string := "7k/5Q2/6K1/8/8/8/8/8 b - - 0 1".

(** King and pawn against king, white to move. *)
Definition king_pawn_white : string := "4k3/8/8/8/8/8/4P3/4K3 w - - 0 1".

(** King against king and pawn, black to move. *)
Definition king_pawn_black : string := "4k3/4p3/8/8/8/8/8/4K3 b - - 0 1".

(** The opening position after 1. Nf3. *)
Definition after_Nf3 : string :=
  "rnbqkbnr/pppppppp/8/8/8/5N2/PPPPPPPP/RNBQKB1R b KQkq - 1 1".

End Positions.

(** ** Vocabulary of the statements *)

(** A computation that, when it returns, leaves the board as it found it. *)
Definition restores_board {Board A} (m : M Board A) : Prop :=
  forall st a st', m st = (inr a, st') -> board st' = board st.

(** The rules provider undoes a legal move exactly: [pop] after [push]
    gives back the board. *)
Definition pop_undoes_push {Board} `{RulesProvider Board} : Prop :=
  forall (b : Board) (m : Move), In m (legal_moves b) -> pop (push b m) = b.

(** The three ways in which a stored entry may be returned. *)
Definition usable (flag : Flag) (stored_score alpha beta : Score) : Prop :=
  flag = TT_EXACT
  \/ (flag = TT_LOWERBOUND /\ score_leb beta stored_score = true)
  \/ (flag = TT_UPPERBOUND /\ score_leb stored_score alpha = true).


(** ** Vocabulary of the further statements *)

(** The hanging-piece steps of [evaluate_board], summed over the board. *)
Definition hanging_total {Board} `{RulesProvider Board}
           (b : Board) (ai_color_is_white : bool) : Q :=
  sum_Q (fun sq =>
           match piece_at b sq with
           | Some piece => hanging_term b ai_color_is_white sq piece
           | None => 0%Q
           end) SQUARES.

(** What [score -= king_open_file_penalty] takes for the king of colour
    [c]: the penalty if that king is seen and has no own pawn on its file. *)
Definition open_file_penalty_of {Board} `{RulesProvider Board}
           (b : Board) (c : Color) : Q :=
  match truthy_square (king b c) with
  | Some k => if king_on_open_file b c k then (- king_open_file_penalty)%Q else 0%Q
  | None => 0%Q
  end.

(** A relation between the state before and the state after that a
    computation keeps whether it returns or raises. *)
Definition always {Board A} (R : State Board -> State Board -> Prop)
           (m : M Board A) : Prop :=
  forall st, R st (snd (m st)).

(** The table is the same after as before. *)
Definition table_kept {Board} (st st' : State Board) : Prop :=
  transposition_table st' = transposition_table st.

(** Every key of the table before is a key of the table after. *)
Definition table_grows {Board} (st st' : State Board) : Prop :=
  forall key, is_Some (transposition_table st !! key) ->
              is_Some (transposition_table st' !! key).

(** A computation that raises no exception but those of [P]. *)
Definition raises_only {Board A} (P : Exn -> Prop) (m : M Board A) : Prop :=
  forall st e st', m st = (inl e, st') -> P e.

Definition is_RecursionError (e : Exn) : Prop := e = RecursionError.

(** [search'] returns whatever [search] returns. *)
Definition extends {Board A} (search search' : M Board A) : Prop :=
  forall st a st', search st = (inr a, st') -> search' st = (inr a, st').

(** The stand-pat value of [quiescence_search] in the window: [beta] if
    the evaluation reaches it, else the larger of [alpha] and the
    evaluation. *)
Definition stand_pat_in_window (stand_pat alpha beta : Score) : Score :=
  if score_leb beta stand_pat then beta
  else if score_ltb alpha stand_pat then stand_pat else alpha.

(** The ranks ahead of a pawn of colour [c] on rank [rank_idx]. *)
Definition rank_ahead (c : Color) (rank_idx r : Z) : Prop :=
  if c then rank_idx < r <= 7 else 0 <= r < rank_idx.

(** A score that is a number, not an infinity. *)
Definition finite (s : Score) : Prop := exists q, s = Fin q.

(** Every score stored in the table is a number. *)
Definition table_finite {Board} (st : State Board) : Prop :=
  forall key d s f, transposition_table st !! key = Some (d, s, f) -> finite s.

(** The rules provider reports every position without a legal move as
    checkmate or as a draw (in chess: checkmate or stalemate). *)
Definition dead_ends_are_terminal {Board} `{RulesProvider Board} : Prop :=
  forall b : Board, is_checkmate b = false -> is_draw b = false -> legal_moves b <> [].

(** The value [best_score_for_node] may have inside the loop of a node
    of the given colour: a number, or the infinity it starts from. *)
Definition best_so_far (ai_color_is_white : bool) (best : Score) : Prop :=
  finite best \/ best = (if ai_color_is_white then NegInf else PosInf).

(** * Theorems *)

(** ** The move ordering is a stable sort by decreasing key *)

Section SortFacts.
Context {A : Type} (key : A -> Z).

Lemma insert_desc_perm (x : A) (l : list A) :
  Permutation (insert_desc key x l) (x :: l).
Proof.
  induction l as [|y l IH]; simpl.
  - apply Permutation_refl.
  - destruct (key y <=? key x).
    + apply Permutation_refl.
    + eapply Permutation_trans; [apply perm_skip, IH | apply perm_swap].
Qed.

Lemma sort_desc_perm (l : list A) : Permutation (sort_desc key l) l.
Proof.
  induction l as [|x l IH]; simpl.
  - apply perm_nil.
  - eapply Permutation_trans; [apply insert_desc_perm | apply perm_skip, IH].
Qed.

Lemma sort_desc_In (l : list A) (x : A) : In x (sort_desc key l) <-> In x l.
Proof.
  split; apply Permutation_in;
    [apply sort_desc_perm | apply Permutation_sym, sort_desc_perm].
Qed.

Lemma insert_desc_sorted (x : A) (l : list A) :
  StronglySorted (key_ge key) l -> StronglySorted (key_ge key) (insert_desc key x l).
Proof.
  induction 1 as [|y l Hs IH Hy]; simpl.
  - repeat constructor.
  - destruct (Z.leb_spec (key y) (key x)) as [Hle|Hgt].
    + constructor; [constructor; assumption|].
      constructor; [exact Hle|].
      eapply Forall_impl; [exact Hy|].
      intros z Hz. unfold key_ge in *. lia.
    + constructor; [exact IH|].
      eapply Permutation_Forall; [apply Permutation_sym, insert_desc_perm|].
      constructor; [unfold key_ge; lia | exact Hy].
Qed.

Lemma sort_desc_sorted (l : list A) : StronglySorted (key_ge key) (sort_desc key l).
Proof.
  induction l as [|x l IH]; simpl; [constructor | apply insert_desc_sorted, IH].
Qed.

Lemma insert_desc_filter (k : Z) (x : A) (l : list A) :
  List.filter (fun y => key y =? k) (insert_desc key x l)
  = List.filter (fun y => key y =? k) (x :: l).
Proof.
  induction l as [|y l IH]; [reflexivity|].
  cbn [insert_desc].
  destruct (Z.leb_spec (key y) (key x)) as [Hle|Hgt]; [reflexivity|].
  cbn [List.filter] in *. rewrite IH.
  destruct (Z.eqb_spec (key x) k) as [Hx|Hx];
    destruct (Z.eqb_spec (key y) k) as [Hy|Hy]; try reflexivity.
  lia.
Qed.

(** Moves of equal key keep the order in which they were generated. *)
Lemma sort_desc_stable (k : Z) (l : list A) :
  List.filter (fun y => key y =? k) (sort_desc key l)
  = List.filter (fun y => key y =? k) l.
Proof.
  induction l as [|x l IH]; [reflexivity|].
  cbn [sort_desc fold_right]. rewrite insert_desc_filter.
  cbn [List.filter]. fold (sort_desc key l). rewrite IH. reflexivity.
Qed.

End SortFacts.

(** ** Effects of the search on the board *)

Section BoardFacts.
Context {Board : Type} `{RulesProvider Board}.

Lemma bind_returns {A B} (m : M Board A) (k : A -> M Board B) st b st' :
  bind m k st = (inr b, st') ->
  exists a st1, m st = (inr a, st1) /\ k a st1 = (inr b, st').
Proof.
  unfold bind. destruct (m st) as [[e|a] st1]; [discriminate|].
  intros Hk. exists a, st1. split; [reflexivity | exact Hk].
Qed.

Lemma quiescence_loop_restores (rec : Score -> Score -> M Board Score) (b : Board) :
  (forall alpha beta, restores_board (rec alpha beta)) ->
  forall moves alpha beta st s st',
    (forall m, In m moves -> pop (push b m) = b) ->
    board st = b ->
    quiescence_loop rec moves alpha beta st = (inr s, st') ->
    board st' = b.
Proof.
  intros Hrec moves.
  induction moves as [|m rest IH]; intros alpha beta st s st' Hpp Hb Hrun.
  - cbn in Hrun. injection Hrun as _ <-. exact Hb.
  - cbn [quiescence_loop] in Hrun.
    apply bind_returns in Hrun as ([] & st1 & Hpush & Hrun).
    apply bind_returns in Hrun as (r & st2 & Hcall & Hrun).
    apply bind_returns in Hrun as ([] & st3 & Hpop & Hrun).
    unfold update_board in Hpush, Hpop.
    injection Hpush as <-. injection Hpop as <-.
    apply Hrec in Hcall. cbn in Hcall.
    assert (Hback : pop (board st2) = b).
    { rewrite Hcall, Hb. apply Hpp. left. reflexivity. }
    destruct (score_leb beta (score_neg r)).
    + injection Hrun as _ <-. exact Hback.
    + eapply IH; [| |exact Hrun].
      * intros m' Hm'. apply Hpp. right. exact Hm'.
      * exact Hback.
Qed.

Lemma quiescence_search_restores (Hpp : pop_undoes_push) (fuel : nat) :
  forall ai_color_is_white alpha beta,
    restores_board (quiescence_search fuel ai_color_is_white alpha beta).
Proof.
  induction fuel as [|fuel IH]; intros ai alpha beta st s st' Hrun.
  - discriminate Hrun.
  - cbn [quiescence_search] in Hrun.
    apply bind_returns in Hrun as (b & st1 & Hget & Hrun).
    injection Hget as <- <-.
    destruct (score_leb beta (Fin (evaluate_board (board st) ai))).
    + injection Hrun as _ <-. reflexivity.
    + eapply quiescence_loop_restores; [| |reflexivity|exact Hrun].
      * intros a' b'. apply IH.
      * intros m Hm. apply Hpp.
        apply sort_desc_In in Hm. apply filter_In in Hm. apply Hm.
Qed.

Lemma minimax_loop_restores (rec : Score -> Score -> M Board Score) (b : Board)
      (ai_color_is_white : bool) :
  (forall alpha beta, restores_board (rec alpha beta)) ->
  forall moves alpha beta best flag st r st',
    (forall m, In m moves -> pop (push b m) = b) ->
    board st = b ->
    minimax_loop rec ai_color_is_white moves alpha beta best flag st = (inr r, st') ->
    board st' = b.
Proof.
  intros Hrec moves.
  induction moves as [|m rest IH]; intros alpha beta best flag st r st' Hpp Hb Hrun.
  - cbn in Hrun. injection Hrun as _ <-. exact Hb.
  - cbn [minimax_loop] in Hrun.
    apply bind_returns in Hrun as ([] & st1 & Hpush & Hrun).
    apply bind_returns in Hrun as (score & st2 & Hcall & Hrun).
    apply bind_returns in Hrun as ([] & st3 & Hpop & Hrun).
    unfold update_board in Hpush, Hpop.
    injection Hpush as <-. injection Hpop as <-.
    apply Hrec in Hcall. cbn in Hcall.
    assert (Hback : pop (board st2) = b).
    { rewrite Hcall, Hb. apply Hpp. left. reflexivity. }
    match type of Hrun with
    | (if ?c then _ else _) _ = _ => destruct c
    end.
    + injection Hrun as _ <-. exact Hback.
    + eapply IH; [| |exact Hrun].
      * intros m' Hm'. apply Hpp. right. exact Hm'.
      * exact Hback.
Qed.

Lemma tt_store_returns key entry (st : State Board) u st' :
  tt_store key entry st = (inr u, st') ->
  st' = mkState (board st) (<[key := entry]> (transposition_table st)).
Proof. unfold tt_store. intros Hs. injection Hs as _ <-. reflexivity. Qed.

Lemma minimax_node_restores (Hpp : pop_undoes_push)
      (quiesce : bool -> Score -> Score -> M Board Score)
      (rec : Z -> bool -> Score -> Score -> M Board Score) :
  (forall ai alpha beta, restores_board (quiesce ai alpha beta)) ->
  (forall depth ai alpha beta, restores_board (rec depth ai alpha beta)) ->
  forall key depth ai alpha beta,
    restores_board (minimax_node quiesce rec key depth ai alpha beta).
Proof.
  intros Hq Hrec key depth ai alpha beta st s st' Hrun.
  unfold minimax_node in Hrun.
  apply bind_returns in Hrun as (b & st1 & Hget & Hrun).
  injection Hget as <- <-.
  destruct (depth =? 0).
  { apply bind_returns in Hrun as (score & st2 & Hcall & Hrun).
    apply bind_returns in Hrun as ([] & st3 & Hstore & Hrun).
    apply tt_store_returns in Hstore. subst st3.
    injection Hrun as _ <-. cbn. eapply Hq, Hcall. }
  destruct (is_checkmate (board st)).
  { apply bind_returns in Hrun as ([] & st3 & Hstore & Hrun).
    apply tt_store_returns in Hstore. subst st3.
    injection Hrun as _ <-. reflexivity. }
  destruct (is_draw (board st)).
  { apply bind_returns in Hrun as ([] & st3 & Hstore & Hrun).
    apply tt_store_returns in Hstore. subst st3.
    injection Hrun as _ <-. reflexivity. }
  apply bind_returns in Hrun as ([best flag] & st2 & Hloop & Hrun).
  apply bind_returns in Hrun as ([] & st3 & Hstore & Hrun).
  apply tt_store_returns in Hstore. subst st3.
  injection Hrun as _ <-. cbn.
  eapply minimax_loop_restores; [| |reflexivity|exact Hloop].
  - intros a' b'. apply Hrec.
  - intros m Hm. apply Hpp. apply sort_desc_In in Hm. exact Hm.
Qed.

Lemma minimax_restores (Hpp : pop_undoes_push) (fuel : nat) :
  forall depth ai_color_is_white alpha beta,
    restores_board (minimax fuel depth ai_color_is_white alpha beta).
Proof.
  induction fuel as [|fuel IH]; intros depth ai alpha beta st s st' Hrun.
  - discriminate Hrun.
  - cbn [minimax] in Hrun.
    apply bind_returns in Hrun as (b & st1 & Hget & Hrun).
    injection Hget as <- <-.
    apply bind_returns in Hrun as (table & st1 & Hget & Hrun).
    injection Hget as <- <-.
    destruct (tt_probe _ _ _ _ _).
    + injection Hrun as _ <-. reflexivity.
    + eapply minimax_node_restores; [exact Hpp| | |exact Hrun].
      * intros. apply quiescence_search_restores, Hpp.
      * exact IH.
Qed.

Lemma root_loop_restores (search : M Board Score) (b : Board) (ai_is_white : bool) :
  restores_board search ->
  forall moves best_score best_move st r st',
    (forall m, In m moves -> pop (push b m) = b) ->
    board st = b ->
    root_loop search ai_is_white moves best_score best_move st = (inr r, st') ->
    board st' = b.
Proof.
  intros Hsearch moves.
  induction moves as [|m rest IH]; intros best_score best_move st r st' Hpp Hb Hrun.
  - cbn in Hrun. injection Hrun as _ <-. exact Hb.
  - cbn [root_loop] in Hrun.
    apply bind_returns in Hrun as ([] & st1 & Hpush & Hrun).
    apply bind_returns in Hrun as (score & st2 & Hcall & Hrun).
    apply bind_returns in Hrun as ([] & st3 & Hpop & Hrun).
    unfold update_board in Hpush, Hpop.
    injection Hpush as <-. injection Hpop as <-.
    apply Hsearch in Hcall. cbn in Hcall.
    assert (Hback : pop (board st2) = b).
    { rewrite Hcall, Hb. apply Hpp. left. reflexivity. }
    match type of Hrun with
    | (if ?c then _ else _) _ = _ => destruct c
    end; (eapply IH; [| |exact Hrun];
          [intros m' Hm'; apply Hpp; right; exact Hm' | exact Hback]).
Qed.

Lemma root_search_restores (Hpp : pop_undoes_push) fuel depth ai_is_white :
  restores_board (root_search fuel depth ai_is_white).
Proof.
  intros st r st' Hrun. unfold root_search in Hrun.
  apply bind_returns in Hrun as ([] & st1 & Hclear & Hrun).
  injection Hclear as <-.
  apply bind_returns in Hrun as (b & st1 & Hget & Hrun).
  injection Hget as <- <-. cbn [board] in Hrun.
  destruct (legal_moves (board st)) as [|m0 ms] eqn:Hmoves.
  - injection Hrun as _ <-. reflexivity.
  - apply bind_returns in Hrun as ([bs bm] & st2 & Hloop & Hrun).
    injection Hrun as _ <-.
    eapply root_loop_restores; cycle 3; [exact Hloop| | |reflexivity].
    + apply minimax_restores, Hpp.
    + intros m Hm. apply Hpp. apply sort_desc_In in Hm.
      rewrite Hmoves. exact Hm.
Qed.

End BoardFacts.

(** ** The table lookup and the terminal nodes of [minimax] *)

Section NodeFacts.
Context {Board : Type} `{RulesProvider Board}.

Lemma minimax_unfold fuel depth ai alpha beta (st : State Board) :
  minimax (S fuel) depth ai alpha beta st
  = match tt_probe (transposition_table st) (fen (board st)) depth alpha beta with
    | Some stored_score => (inr stored_score, st)
    | None =>
      minimax_node (quiescence_search fuel) (minimax fuel)
                   (fen (board st)) depth ai alpha beta st
    end.
Proof.
  cbn [minimax]. unfold bind, get_board, get_table.
  destruct (tt_probe _ _ _ _ _); reflexivity.
Qed.

Lemma tt_probe_Some table key depth alpha beta s :
  tt_probe table key depth alpha beta = Some s <->
  exists d f, table !! key = Some (d, s, f) /\ depth <= d /\ usable f s alpha beta.
Proof.
  unfold tt_probe, usable. split.
  - destruct (table !! key) as [[[d s'] f]|]; [|discriminate].
    destruct (Z.leb_spec depth d) as [Hd|Hd]; [|discriminate].
    destruct f; cbn [Flag_eqb andb].
    + intros [= <-]. exists d, TT_EXACT. split; [reflexivity|]. split; [exact Hd|].
      left. reflexivity.
    + destruct (score_leb beta s') eqn:Hb; [|discriminate].
      intros [= <-]. exists d, TT_LOWERBOUND. split; [reflexivity|]. split; [exact Hd|].
      right. left. split; [reflexivity | exact Hb].
    + destruct (score_leb s' alpha) eqn:Ha; [|discriminate].
      intros [= <-]. exists d, TT_UPPERBOUND. split; [reflexivity|]. split; [exact Hd|].
      right. right. split; [reflexivity | exact Ha].
  - intros (d & f & -> & Hd & Hu).
    destruct (Z.leb_spec depth d) as [_|Hlt]; [|lia].
    destruct Hu as [-> | [[-> Hb] | [-> Ha]]]; cbn [Flag_eqb andb].
    + reflexivity.
    + rewrite Hb. reflexivity.
    + rewrite Ha. reflexivity.
Qed.

(** A checkmated node: the score depends on whether the side to move is
    the perspective colour. *)
Lemma minimax_node_checkmate quiesce rec key depth ai alpha beta (st : State Board) :
  depth <> 0 ->
  is_checkmate (board st) = true ->
  minimax_node quiesce rec key depth ai alpha beta st
  = let score := if Bool.eqb (turn (board st)) (color_of ai)
                 then Fin MATE else Fin (- MATE) in
    (inr score,
     mkState (board st) (<[key := (depth, score, TT_EXACT)]> (transposition_table st))).
Proof.
  intros Hd Hmate. unfold minimax_node, bind, get_board.
  destruct (Z.eqb_spec depth 0) as [->|_]; [contradiction|].
  rewrite Hmate. reflexivity.
Qed.

Lemma minimax_node_draw quiesce rec key depth ai alpha beta (st : State Board) :
  depth <> 0 ->
  is_checkmate (board st) = false ->
  is_draw (board st) = true ->
  minimax_node quiesce rec key depth ai alpha beta st
  = (inr (Fin 0),
     mkState (board st) (<[key := (depth, Fin 0, TT_EXACT)]> (transposition_table st))).
Proof.
  intros Hd Hmate Hdraw. unfold minimax_node, bind, get_board.
  destruct (Z.eqb_spec depth 0) as [->|_]; [contradiction|].
  rewrite Hmate, Hdraw. reflexivity.
Qed.

(** The flag that the loop over the moves hands back is the bound of the
    node's colour, whether or not the loop was cut off. *)
Lemma minimax_loop_flag rec ai moves :
  forall alpha beta best (st : State Board) best' flag' st',
    minimax_loop rec ai moves alpha beta best
                 (if ai then TT_LOWERBOUND else TT_UPPERBOUND) st
    = (inr (best', flag'), st') ->
    flag' = if ai then TT_LOWERBOUND else TT_UPPERBOUND.
Proof.
  induction moves as [|m rest IH]; intros alpha beta best st best' flag' st' Hrun.
  - cbn in Hrun. injection Hrun as _ <- _. reflexivity.
  - cbn [minimax_loop] in Hrun.
    apply bind_returns in Hrun as ([] & st1 & _ & Hrun).
    apply bind_returns in Hrun as (score & st2 & _ & Hrun).
    apply bind_returns in Hrun as ([] & st3 & _ & Hrun).
    match type of Hrun with
    | (if ?c then _ else _) _ = _ => destruct c
    end.
    + injection Hrun as _ <- _. reflexivity.
    + eapply IH, Hrun.
Qed.

(** An inner node that is neither mate nor draw stores the bound of its
    colour, never [TT_EXACT]. *)
Lemma minimax_node_inner_flag quiesce rec key depth ai alpha beta
      (st : State Board) s st' :
  depth <> 0 ->
  is_checkmate (board st) = false ->
  is_draw (board st) = false ->
  minimax_node quiesce rec key depth ai alpha beta st = (inr s, st') ->
  transposition_table st' !! key
  = Some (depth, s, if ai then TT_LOWERBOUND else TT_UPPERBOUND).
Proof.
  intros Hd Hmate Hdraw Hrun. unfold minimax_node in Hrun.
  apply bind_returns in Hrun as (b & st1 & Hget & Hrun).
  injection Hget as <- <-.
  destruct (Z.eqb_spec depth 0) as [->|_]; [contradiction|].
  rewrite Hmate, Hdraw in Hrun.
  apply bind_returns in Hrun as ([best flag] & st2 & Hloop & Hrun).
  apply bind_returns in Hrun as ([] & st3 & Hstore & Hrun).
  apply tt_store_returns in Hstore. subst st3.
  injection Hrun as <- <-. cbn.
  apply minimax_loop_flag in Hloop. subst flag.
  apply lookup_insert_eq.
Qed.

End NodeFacts.

(** ** The rules provider of python-chess undoes its moves *)

Lemma pychess_pop_undoes_push : pop_undoes_push (Board := PyChess.Board).
Proof. intros [pos stk] m _. reflexivity. Qed.

(** ** Checkmate (C1) *)

(** C1, evaluated on the code: black mates in one with a2a1.  In the
    position after that move white, the side to move, is checkmated.
    Searched from white's perspective (the checkmated side is the
    perspective colour) the node scores +1,000,000, and from black's
    perspective -1,000,000, each stored as EXACT: the opposite of the
    signs the claim states.  The endpoint, asked for black's move at
    depth 2, reaches the node with white's perspective, and black, who
    minimises, answers h8g8 instead of the mate. *)
Theorem checkmated_mover_scores_plus_mate :
  let root := Positions.board_of Positions.mate_in_one in
  let b := push root (mkMove 8 0 None) in
  fen b = "7k/8/8/8/8/8/5PPP/r5K1 w - - 1 2"
  /\ is_checkmate b = true
  /\ turn b = WHITE
  /\ minimax 1 1 true NegInf PosInf (mkState b ∅)
     = (inr (Fin MATE), mkState b (<[fen b := (1, Fin MATE, TT_EXACT)]> ∅))
  /\ minimax 1 1 false NegInf PosInf (mkState b ∅)
     = (inr (Fin (- MATE)), mkState b (<[fen b := (1, Fin (- MATE), TT_EXACT)]> ∅))
  /\ fst (get_ai_move 6 (mkRequest (Some (JString Positions.mate_in_one))
                                   (Some (JString "black"))
                                   (Some (JString "intermediate"))) (∅ : Table))
     = mkResponse true (Some (mkResponseMove "h8" "g8" None)) "AI found a move." 200.
Proof.
  intros root b.
  assert (Hmate : is_checkmate b = true) by (vm_compute; reflexivity).
  assert (Hturn : turn b = WHITE) by (vm_compute; reflexivity).
  split; [vm_compute; reflexivity|].
  split; [exact Hmate|]. split; [exact Hturn|].
  split; [|split]; [| |vm_compute; reflexivity];
    rewrite minimax_unfold; cbn [board transposition_table];
    unfold tt_probe; rewrite lookup_empty;
    (rewrite minimax_node_checkmate; [|lia|exact Hmate]);
    cbn [board transposition_table]; rewrite Hturn; reflexivity.
Qed.

(** ** Evaluator symmetry (C2) *)

(** The hanging-piece step never fires for a piece of the opponent: its
    guard asks that the opponent attacks the square and does not attack
    it. *)
Lemma hanging_term_opponent {Board} `{RulesProvider Board}
      (b : Board) (ai : bool) (sq : Square) (piece : Piece) :
  color piece = color_of (negb ai) -> hanging_term b ai sq piece = 0%Q.
Proof.
  intros Hc. unfold hanging_term. rewrite Hc.
  destruct (is_attacked_by b (color_of (negb ai)) sq); reflexivity.
Qed.

(** The open-file penalty of the white king is subtracted whatever the
    perspective: the white king's term does not change sign with it. *)
Lemma white_king_term_not_negated {Board} `{RulesProvider Board}
      (b : Board) (k : Square) :
  truthy_square (king b WHITE) = Some k ->
  king_on_open_file b WHITE k = true ->
  (white_king_term b true + white_king_term b false == -20)%Q.
Proof.
  intros Hk Hopen. unfold white_king_term. rewrite Hk, Hopen.
  unfold signed, king_open_file_penalty, king_attack_penalty. cbn [negb].
  destruct (is_check b); ring.
Qed.

(** C2, evaluated on the code: with king and pawn against king the
    evaluator gives 189 from white's perspective and -209 from black's,
    not -189: the open-file penalty of the black king is subtracted from
    both scores (the king-safety term is -10 from either perspective).
    The hanging-piece step, too, only ever penalises the perspective's
    own pieces: for a piece of the other colour it is always 0. *)
Theorem evaluation_not_negated_by_swapping_perspective :
  let b := Positions.board_of Positions.king_pawn_white in
  evaluate_board b true = 189%Q
  /\ evaluate_board b false = (-209)%Q
  /\ king_safety_term b true = (-10)%Q
  /\ king_safety_term b false = (-10)%Q
  /\ ~ (evaluate_board b true == - evaluate_board b false)%Q
  /\ forall (b' : PyChess.Board) ai sq piece,
       color piece = color_of (negb ai) -> hanging_term b' ai sq piece = 0%Q.
Proof.
  intros b.
  assert (Hw : evaluate_board b true = 189%Q) by (vm_compute; reflexivity).
  assert (Hb : evaluate_board b false = (-209)%Q) by (vm_compute; reflexivity).
  split; [exact Hw|]. split; [exact Hb|].
  split; [vm_compute; reflexivity|]. split; [vm_compute; reflexivity|].
  split.
  - rewrite Hw, Hb. intros Heq. vm_compute in Heq. discriminate Heq.
  - intros b' ai sq piece. apply hanging_term_opponent.
Qed.

(** ** Bound kinds of inner nodes (C3) *)

(** C3, evaluated on the code: king and pawn against king, white to move,
    depth 1, full window.  The node is neither mate nor draw, each of its
    six legal moves is searched (each child has its entry in the table,
    so the loop was not cut off), and the entry stored for the node is
    (1, -199, LOWER_BOUND), not EXACT. *)
Theorem inner_node_without_cutoff_stores_bound :
  let b := Positions.board_of Positions.king_pawn_white in
  let r := minimax 3 1 true NegInf PosInf (mkState b ∅) in
  is_checkmate b = false
  /\ is_draw b = false
  /\ length (legal_moves b) = 6%nat
  /\ forallb (fun m => bool_decide
                         (is_Some (transposition_table (snd r) !! fen (push b m))))
             (legal_moves b) = true
  /\ fst r = inr (Fin (-199))
  /\ transposition_table (snd r) !! fen b = Some (1, Fin (-199), TT_LOWERBOUND).
Proof.
  intros b r.
  split; [vm_compute; reflexivity|]. split; [vm_compute; reflexivity|].
  split; [vm_compute; reflexivity|]. split; [vm_compute; reflexivity|].
  split; vm_compute; reflexivity.
Qed.

(** ** The table lookup (C4) *)



(** ** Alpha-beta against full-width search (C5) *)

(** C5, evaluated on the code: king against king and pawn, black to move,
    engine black, depth 2 (difficulty intermediate), fresh table.  The
    root driver of the code selects e8d8 with score 163.  The unpruned
    negamax of the spec under the same root driver selects e8f7 with
    score -185; even the full-width search that branches by colour as
    the code does, without window and table, gives 179 for e8d8.  The
    windows that [minimax] hands down clamp the quiescence values, and
    the scores of the children are not negated. *)
Theorem root_search_differs_from_full_width_search :
  let b := Positions.board_of Positions.king_pawn_black in
  fst (root_search 4 2 false (mkState b ∅))
  = inr (Searched (Fin 163) (Some (mkMove 60 59 None)))
  /\ root_with (negamax_full 4 1) b false = inr (Fin (-185), Some (mkMove 60 53 None))
  /\ root_with (minimax_full 4 1) b false = inr (Fin 179, Some (mkMove 60 59 None)).
Proof.
  intros b.
  split; [vm_compute; reflexivity|].
  split; vm_compute; reflexivity.
Qed.

(** ** Drawn nodes (C6) *)

(** C6 (amended): at a node of depth > 0 whose position is a stalemate,
    has insufficient material, is a fivefold repetition or falls under
    the seventy-five-move rule, and is not checkmate, [minimax] does one
    of two things.  If the table lookup finds a trusted entry under the
    position's FEN, the stored score is returned and nothing changes;
    otherwise the score is 0 and the entry (depth, 0, EXACT) is stored
    under the position's FEN, the board being left as it was. *)
Theorem drawn_node_scores_zero {Board} `{RulesProvider Board}
        (fuel : nat) (depth : Z) (ai_color_is_white : bool) (alpha beta : Score)
        (st : State Board) :
  0 < depth ->
  (is_stalemate (board st) = true \/ is_insufficient_material (board st) = true
   \/ is_fivefold_repetition (board st) = true \/ is_seventyfive_moves (board st) = true) ->
  is_checkmate (board st) = false ->
  (forall stored,
      tt_probe (transposition_table st) (fen (board st)) depth alpha beta = Some stored ->
      minimax (S fuel) depth ai_color_is_white alpha beta st = (inr stored, st))
  /\ (tt_probe (transposition_table st) (fen (board st)) depth alpha beta = None ->
      minimax (S fuel) depth ai_color_is_white alpha beta st
      = (inr (Fin 0),
         mkState (board st)
                 (<[fen (board st) := (depth, Fin 0, TT_EXACT)]> (transposition_table st)))).
Proof.
  intros Hdepth Hdraw Hmate.
  assert (Hd : is_draw (board st) = true).
  { unfold is_draw. destruct Hdraw as [-> | [-> | [-> | ->]]];
      rewrite ?orb_true_r; reflexivity. }
  split.
  - intros stored Hprobe. rewrite minimax_unfold, Hprobe. reflexivity.
  - intros Hprobe. rewrite minimax_unfold, Hprobe.
    rewrite minimax_node_draw; [reflexivity|lia|exact Hmate|exact Hd].
Qed.

Lemma drawn_node_scores_zero_witness :
  let b := Positions.board_of Positions.stalemate in
  is_stalemate b = true
  /\ is_checkmate b = false
  /\ minimax 1 1 true NegInf PosInf (mkState b ∅)
     = (inr (Fin 0), mkState b (<[fen b := (1, Fin 0, TT_EXACT)]> ∅)).
Proof.
  intros b.
  assert (Hstale : is_stalemate b = true) by (vm_compute; reflexivity).
  assert (Hmate : is_checkmate b = false) by (vm_compute; reflexivity).
  split; [exact Hstale|]. split; [exact Hmate|].
  apply (drawn_node_scores_zero 0 1 true NegInf PosInf (mkState b ∅)
           ltac:(lia) (or_introl Hstale) Hmate).
  unfold tt_probe. cbn [transposition_table]. rewrite lookup_empty. reflexivity.
Defined.

(** C6 as it is worded fails twice.  First, a position may be checkmate
    and have insufficient material at once, and checkmate is tested
    first: after Be5xc3 from 8/8/8/4B3/8/K1n5/8/k1K5 w - - 0 1, a position
    the endpoint accepts, black is mated by king and bishop against king,
    and the node at depth 1 scores 1000000.  Second, the table is read
    before the draw test and its key, the FEN, leaves the history out:
    king and pawn against king after the kings have stepped aside and
    back four times is a fivefold repetition with the FEN
    4k3/8/8/8/8/8/4P3/4K3 w - - 16 9; the search of a fresh board of that
    FEN stores (1, -199, LOWER_BOUND) under it, and the search of the
    repeated position with beta = -300 then returns -199. *)
Lemma drawn_node_scored_as_mate_or_from_table :
  (let root := Positions.board_of "8/8/8/4B3/8/K1n5/8/k1K5 w - - 0 1" in
   let b := push root (mkMove 36 18 None) in
   is_game_over root = false
   /\ In (mkMove 36 18 None) (legal_moves root)
   /\ fen b = "8/8/8/8/8/K1B5/8/k1K5 b - - 0 1"
   /\ is_insufficient_material b = true
   /\ is_checkmate b = true
   /\ fst (minimax 1 1 false NegInf PosInf (mkState b ∅)) = inr (Fin 1000000)
   /\ fst (minimax 1 1 false NegInf PosInf (mkState b ∅)) <> inr (Fin 0))
  /\ (let aside_and_back :=
        [mkMove 4 3 None; mkMove 60 59 None; mkMove 3 4 None; mkMove 59 60 None] in
      let repeated :=
        fold_left push (aside_and_back ++ aside_and_back ++ aside_and_back ++ aside_and_back)
                  (Positions.board_of Positions.king_pawn_white) in
      let fresh := Positions.board_of "4k3/8/8/8/8/8/4P3/4K3 w - - 16 9" in
      let table := transposition_table
                     (snd (minimax 3 1 true NegInf PosInf (mkState fresh ∅))) in
      fen repeated = "4k3/8/8/8/8/8/4P3/4K3 w - - 16 9"
      /\ is_fivefold_repetition repeated = true
      /\ is_checkmate repeated = false
      /\ table !! fen repeated = Some (1, Fin (-199), TT_LOWERBOUND)
      /\ fst (minimax 1 1 true NegInf (Fin (-300)) (mkState repeated table))
         = inr (Fin (-199))
      /\ fst (minimax 1 1 true NegInf (Fin (-300)) (mkState repeated table))
         <> inr (Fin 0)).
Proof.
  split.
  - intros root b.
    assert (Hrun : fst (minimax 1 1 false NegInf PosInf (mkState b ∅))
                   = inr (Fin 1000000)) by (vm_compute; reflexivity).
    split; [vm_compute; reflexivity|].
    split; [vm_compute; tauto|].
    split; [vm_compute; reflexivity|].
    split; [vm_compute; reflexivity|].
    split; [vm_compute; reflexivity|].
    split; [exact Hrun|].
    rewrite Hrun. intros Heq. discriminate Heq.
  - intros aside_and_back repeated fresh table.
    assert (Hrun : fst (minimax 1 1 true NegInf (Fin (-300)) (mkState repeated table))
                   = inr (Fin (-199))) by (vm_compute; reflexivity).
    split; [vm_compute; reflexivity|].
    split; [vm_compute; reflexivity|].
    split; [vm_compute; reflexivity|].
    split; [vm_compute; reflexivity|].
    split; [exact Hrun|].
    rewrite Hrun. intros Heq. discriminate Heq.
Qed.

(** ** Early development (C7) *)

Lemma developed_pieces_zero {Board} `{RulesProvider Board}
      (b : Board) (c : Color) (home : list Square) :
  developed_pieces b c home = 0.
Proof.
  unfold developed_pieces. generalize 0 as n.
  induction home as [|sq home IH]; intros n; [reflexivity|].
  cbn [fold_left]. rewrite IH.
  destruct (piece_at b sq) as [piece|]; [|reflexivity].
  destruct (minor_of c piece); reflexivity.
Qed.

Lemma development_term_zero {Board} `{RulesProvider Board} (b : Board) (ai : bool) :
  development_term b ai = 0%Q.
Proof.
  unfold development_term. rewrite !developed_pieces_zero.
  destruct (fullmove_number b <? 6); [|reflexivity].
  destruct ai; reflexivity.
Qed.

(** C7, evaluated on the code: after 1. Nf3 the full-move number is 1,
    white's king's knight stands on f3 and g1 is empty, so white has one
    developed piece and black none; the development term is nevertheless
    0 from either perspective, as it is on every board: the branch that
    counts a developed piece can only be entered by a piece that fails
    the test made inside it. *)
Theorem development_term_never_counts :
  let b := Positions.board_of Positions.after_Nf3 in
  fullmove_number b = 1
  /\ piece_at b 21 = Some (mkPiece KNIGHT WHITE)
  /\ piece_at b G1 = None
  /\ development_term b true = 0%Q
  /\ development_term b false = 0%Q
  /\ forall (b' : PyChess.Board) (ai : bool), development_term b' ai = 0%Q.
Proof.
  intros b.
  split; [vm_compute; reflexivity|]. split; [vm_compute; reflexivity|].
  split; [vm_compute; reflexivity|].
  split; [apply development_term_zero|]. split; [apply development_term_zero|].
  intros b' ai. apply development_term_zero.
Qed.

(** ** Failures of the endpoint (C8) *)




(** ** The board after a search (C9) *)

(** C9: if the rules provider undoes a legal move exactly, then every
    call of [quiescence_search], of [minimax] and of the root search that
    returns leaves the board as it was at the call: each move is pushed,
    searched and popped before the next one is tried. *)
Theorem search_leaves_board_unchanged {Board} `{RulesProvider Board} :
  pop_undoes_push ->
  forall fuel : nat,
    (forall ai alpha beta, restores_board (quiescence_search fuel ai alpha beta))
    /\ (forall depth ai alpha beta, restores_board (minimax fuel depth ai alpha beta))
    /\ (forall depth ai, restores_board (root_search fuel depth ai)).
Proof.
  intros Hpp fuel. split; [|split].
  - apply quiescence_search_restores, Hpp.
  - apply minimax_restores, Hpp.
  - intros depth ai. apply root_search_restores, Hpp.
Qed.

Lemma search_leaves_board_unchanged_witness :
  let st := mkState (Positions.board_of Positions.king_pawn_white) ∅ in
  fst (minimax 3 1 true NegInf PosInf st) = inr (Fin (-199))
  /\ board (snd (minimax 3 1 true NegInf PosInf st)) = board st.
Proof.
  intros st.
  assert (Hrun : fst (minimax 3 1 true NegInf PosInf st) = inr (Fin (-199)))
    by (vm_compute; reflexivity).
  split; [exact Hrun|].
  destruct (search_leaves_board_unchanged pychess_pop_undoes_push 3) as (_ & Hm & _).
  eapply Hm. rewrite <- Hrun. apply surjective_pairing.
Defined.

(** ** Determinism (C10) *)

Lemma root_search_forgets_table {Board} `{RulesProvider Board}
      (fuel : nat) (depth : Z) (ai : bool) (b : Board) (t1 t2 : Table) :
  root_search fuel depth ai (mkState b t1) = root_search fuel depth ai (mkState b t2).
Proof. reflexivity. Qed.

Lemma handle_forgets_table {Board} `{RulesProvider Board}
      (fuel : nat) (fen_value color_value difficulty_value : JsonValue)
      (t1 t2 : Table) :
  fst (handle fuel fen_value color_value difficulty_value t1)
  = fst (handle fuel fen_value color_value difficulty_value t2).
Proof.
  unfold handle.
  destruct (Board_of_json fen_value) as [e|b]; [reflexivity|].
  destruct color_value as [color_str|truthy type_name]; [|reflexivity].
  unfold handle_board.
  destruct (is_game_over b); [reflexivity|].
  destruct (negb _); [reflexivity|].
  rewrite (root_search_forgets_table _ _ _ b t1 t2).
  destruct (root_search _ _ _ _) as [[e|[|bs [m|]]] st]; reflexivity.
Qed.

(** C10: the answer of the endpoint is a function of the request alone.
    The root search gives the same outcome (score and move) and leaves
    the same table whatever the table held before, because it clears it
    first; so does the response of [get_ai_move]; and the ordering of the
    moves is a permutation sorted by decreasing key in which moves of
    equal key keep their generation order. *)
Theorem move_selection_is_deterministic {Board} `{RulesProvider Board} :
  (forall fuel depth ai (b : Board) (t1 t2 : Table),
      root_search fuel depth ai (mkState b t1) = root_search fuel depth ai (mkState b t2))
  /\ (forall fuel data (t1 t2 : Table),
         fst (get_ai_move fuel data t1) = fst (get_ai_move fuel data t2))
  /\ (forall (key : Move -> Z) (moves : list Move),
         Permutation (sort_desc key moves) moves
         /\ StronglySorted (key_ge key) (sort_desc key moves)
         /\ forall k, List.filter (fun m => key m =? k) (sort_desc key moves)
                      = List.filter (fun m => key m =? k) moves).
Proof.
  split; [|split].
  - intros. apply root_search_forgets_table.
  - intros fuel data t1 t2. unfold get_ai_move.
    destruct (falsy (board_fen data) || falsy (ai_color data) || falsy (difficulty data));
      [reflexivity|].
    destruct (board_fen data) as [f|]; [|reflexivity].
    destruct (ai_color data) as [c|]; [|reflexivity].
    destruct (difficulty data) as [d|]; [|reflexivity].
    pose proof (handle_forgets_table fuel f c d t1 t2) as Hh.
    destruct (handle fuel f c d t1) as [[e1|r1] u1];
      destruct (handle fuel f c d t2) as [[e2|r2] u2];
      cbn in Hh; try discriminate Hh; injection Hh as ->; reflexivity.
  - intros key moves. split; [apply sort_desc_perm|].
    split; [apply sort_desc_sorted|]. intros k. apply sort_desc_stable.
Qed.

(** * Further properties of the code *)

(** ** Helpers of the evaluator *)

Lemma In_range (a b x : Z) : In x (range a b) <-> a <= x < b.
Proof.
  unfold range. rewrite in_map_iff. split.
  - intros (i & <- & Hi). apply in_seq in Hi. lia.
  - intros Hx. exists (Z.to_nat (x - a)). split; [lia|]. apply in_seq. lia.
Qed.

(** X1: the table [get_piece_table] hands out for a black piece is the
    white table turned by 180 degrees: its entry at (row, col) is the
    white entry at (7 - row, 7 - col); for a white piece it is the table
    itself. *)
Theorem black_table_is_rotated_white_table (pt : PieceType) (row col : Z) :
  0 <= row <= 7 -> 0 <= col <= 7 ->
  table_at (get_piece_table pt BLACK) row col
  = table_at (PIECE_TABLES pt) (7 - row) (7 - col)
  /\ get_piece_table pt WHITE = PIECE_TABLES pt.
Proof.
  intros Hrow Hcol. split; [|reflexivity].
  assert (Hr : In row (range 0 8)) by (apply In_range; lia).
  assert (Hc : In col (range 0 8)) by (apply In_range; lia).
  clear Hrow Hcol.
  repeat (destruct Hr as [<-|Hr]; [|]); try contradiction;
    repeat (destruct Hc as [<-|Hc]; [|]); try contradiction;
    destruct pt; reflexivity.
Qed.

Lemma black_table_is_rotated_white_table_witness :
  table_at (get_piece_table KING BLACK) 7 4 = table_at (PIECE_TABLES KING) 0 3
  /\ get_piece_table KING WHITE = PIECE_TABLES KING.
Proof.
  apply (black_table_is_rotated_white_table KING 7 4); lia.
Defined.

(** X2: [_is_path_clear] does not depend on the order of its two
    squares; on one rank it holds exactly when every square strictly
    between them is empty; and for two squares that share neither rank
    nor file it holds whatever stands on the board. *)
Theorem path_clear_is_symmetric_and_exact {Board} `{RulesProvider Board}
        (b : Board) (square1 square2 : Square) :
  _is_path_clear b square1 square2 = _is_path_clear b square2 square1
  /\ (square_rank square1 = square_rank square2 ->
      (_is_path_clear b square1 square2 = true <->
       forall f, Z.min (square_file square1) (square_file square2) < f
                 < Z.max (square_file square1) (square_file square2) ->
                 piece_at b (square f (square_rank square1)) = None))
  /\ (square_rank square1 <> square_rank square2 ->
      square_file square1 <> square_file square2 ->
      _is_path_clear b square1 square2 = true).
Proof.
  unfold _is_path_clear. split; [|split].
  - rewrite (Z.eqb_sym (square_rank square2)), (Z.eqb_sym (square_file square2)).
    rewrite (Z.min_comm (square_file square2)), (Z.max_comm (square_file square2)).
    rewrite (Z.min_comm (square_rank square2)), (Z.max_comm (square_rank square2)).
    destruct (Z.eqb_spec (square_rank square1) (square_rank square2)) as [->|_];
      [reflexivity|].
    destruct (Z.eqb_spec (square_file square1) (square_file square2)) as [->|_];
      reflexivity.
  - intros Hrank. rewrite Hrank, Z.eqb_refl. rewrite forallb_forall. split.
    + intros Hall f Hf.
      specialize (Hall f ltac:(apply In_range; lia)).
      destruct (piece_at b (square f (square_rank square2))); [discriminate|reflexivity].
    + intros Hall f Hf. apply In_range in Hf.
      rewrite (Hall f ltac:(lia)). reflexivity.
  - intros Hrank Hfile.
    destruct (Z.eqb_spec (square_rank square1) (square_rank square2)); [contradiction|].
    destruct (Z.eqb_spec (square_file square1) (square_file square2)); [contradiction|].
    reflexivity.
Qed.

Lemma path_clear_is_symmetric_and_exact_witness :
  let b := Positions.board_of "4k3/8/8/8/8/8/8/R2QK2R w KQ - 0 1" in
  _is_path_clear b 0 7 = false /\ _is_path_clear b 7 0 = false
  /\ _is_path_clear b 0 63 = true.
Proof.
  intros b.
  destruct (path_clear_is_symmetric_and_exact b 0 7) as (Hsym & Hrank & _).
  destruct (path_clear_is_symmetric_and_exact b 0 63) as (_ & _ & Hdiag).
  assert (Hblocked : _is_path_clear b 0 7 = false).
  { destruct (_is_path_clear b 0 7) eqn:Hclear; [|reflexivity].
    pose proof (proj1 (Hrank eq_refl) eq_refl 3) as Hempty.
    specialize (Hempty ltac:(vm_compute; split; reflexivity)).
    vm_compute in Hempty. discriminate Hempty. }
  split; [exact Hblocked|]. split; [rewrite <- Hsym; exact Hblocked|].
  apply Hdiag; vm_compute; discriminate.
Defined.

(** X3: [_is_passed_pawn] holds exactly when no pawn of the other colour
    stands on a rank ahead of the square (higher ranks for white, lower
    for black) on the square's file or a neighbouring file; own pawns and
    other pieces ahead do not matter. *)
Theorem passed_pawn_iff_no_opposing_pawn_ahead {Board} `{RulesProvider Board}
        (b : Board) (sq : Square) (pawn_color : Color) :
  _is_passed_pawn b sq pawn_color = true <->
  forall f r,
    Z.max 0 (square_file sq - 1) <= f < Z.min 8 (square_file sq + 2) ->
    rank_ahead pawn_color (square_rank sq) r ->
    piece_at b (square f r) <> Some (mkPiece PAWN (negb pawn_color)).
Proof.
  unfold _is_passed_pawn.
  assert (Hopp : (if Bool.eqb pawn_color WHITE then BLACK else WHITE) = negb pawn_color)
    by (destruct pawn_color; reflexivity).
  rewrite Hopp.
  assert (Hranks : forall r,
             In r (if Bool.eqb pawn_color WHITE then range (square_rank sq + 1) 8
                   else rev (range 0 (square_rank sq)))
             <-> rank_ahead pawn_color (square_rank sq) r).
  { intros r. unfold rank_ahead. destruct pawn_color; cbn [Bool.eqb WHITE].
    - rewrite In_range. lia.
    - rewrite <- in_rev, In_range. lia. }
  assert (Hpiece : forall s, piece_is b s (mkPiece PAWN (negb pawn_color)) = false
                             <-> piece_at b s <> Some (mkPiece PAWN (negb pawn_color))).
  { intros s. unfold piece_is. destruct (piece_at b s) as [[pt c]|].
    - unfold Piece_eqb. cbn [piece_type color]. split.
      + intros Hneq [= -> ->]. cbn in Hneq. rewrite Bool.eqb_reflx in Hneq.
        discriminate Hneq.
      + intros Hneq. destruct pt; cbn; try reflexivity.
        destruct (Bool.eqb_spec c (negb pawn_color)) as [->|]; [|reflexivity].
        contradiction Hneq. reflexivity.
    - split; [discriminate|reflexivity]. }
  rewrite forallb_forall. split.
  - intros Hall f r Hf Hr.
    specialize (Hall f ltac:(apply In_range; exact Hf)).
    rewrite forallb_forall in Hall.
    specialize (Hall r ltac:(apply Hranks; exact Hr)).
    apply Hpiece. destruct (piece_is b (square f r) _); [discriminate|reflexivity].
  - intros Hall f Hf. apply In_range in Hf. rewrite forallb_forall.
    intros r Hr. apply Hranks in Hr.
    rewrite (proj2 (Hpiece (square f r)) (Hall f r Hf Hr)). reflexivity.
Qed.

Lemma passed_pawn_iff_no_opposing_pawn_ahead_witness :
  let b := Positions.board_of Positions.king_pawn_white in
  _is_passed_pawn b 12 WHITE = true.
Proof.
  intros b. apply passed_pawn_iff_no_opposing_pawn_ahead.
  intros f r Hf Hr.
  assert (Hfs : In f (range 3 6)) by (apply In_range; exact Hf).
  assert (Hr' : 1 < r <= 7) by exact Hr.
  assert (Hrs : In r (range 2 8)) by (apply In_range; lia).
  clear Hr'.
  clear Hf Hr.
  repeat (destruct Hfs as [<-|Hfs]; [|]); try contradiction;
    repeat (destruct Hrs as [<-|Hrs]; [|]); try contradiction;
    vm_compute; discriminate.
Defined.

(** ** How far [evaluate_board] is from changing sign with the perspective *)

Section SumFacts.
Context {A : Type}.

Lemma sum_Q_from (f : A -> Q) (l : list A) (a : Q) :
  (fold_left (fun acc x => acc + f x) l a == a + sum_Q f l)%Q.
Proof.
  unfold sum_Q. revert a.
  induction l as [|x l IH]; intros a; cbn [fold_left].
  - ring.
  - rewrite (IH (a + f x)%Q), (IH (0 + f x)%Q). ring.
Qed.

Lemma sum_Q_cons (f : A -> Q) (x : A) (l : list A) :
  (sum_Q f (x :: l) == f x + sum_Q f l)%Q.
Proof.
  unfold sum_Q at 1. cbn [fold_left]. rewrite sum_Q_from. ring.
Qed.

(** Two sums over one list cancel when their summands do. *)
Lemma sum_Q_cancel (f g : A -> Q) (l : list A) :
  (forall x, f x + g x == 0)%Q -> (sum_Q f l + sum_Q g l == 0)%Q.
Proof.
  intros Hfg. induction l as [|x l IH].
  - reflexivity.
  - rewrite !sum_Q_cons. specialize (Hfg x). lra.
Qed.

(** Two sums over one list add up to the sum of what their summands add
    up to. *)
Lemma sum_Q_residue (f g h : A -> Q) (l : list A) :
  (forall x, f x + g x == h x)%Q -> (sum_Q f l + sum_Q g l == sum_Q h l)%Q.
Proof.
  intros Hfg. induction l as [|x l IH].
  - reflexivity.
  - rewrite !sum_Q_cons. specialize (Hfg x). lra.
Qed.

End SumFacts.

Lemma signed_cancel (c : bool) (x : Q) : (signed c x + signed (negb c) x == 0)%Q.
Proof. destruct c; unfold signed; cbn [negb]; ring. Qed.

Section Antisymmetry.
Context {Board : Type} `{RulesProvider Board}.
Variable b : Board.

Lemma own_other (c : Color) :
  Bool.eqb c (color_of false) = negb (Bool.eqb c (color_of true)).
Proof. destruct c; reflexivity. Qed.

Lemma pieces_term_residue :
  (pieces_term b true + pieces_term b false
   == hanging_total b true + hanging_total b false)%Q.
Proof.
  unfold pieces_term, hanging_total.
  rewrite (sum_Q_residue
             (fun sq => match piece_at b sq with
                        | Some piece => hanging_term b true sq piece
                        | None => 0
                        end)
             (fun sq => match piece_at b sq with
                        | Some piece => hanging_term b false sq piece
                        | None => 0
                        end)
             (fun sq => match piece_at b sq with
                        | Some piece =>
                          hanging_term b true sq piece + hanging_term b false sq piece
                        | None => 0
                        end))%Q.
  - apply sum_Q_residue. intros sq. unfold piece_term.
    destruct (piece_at b sq) as [piece|]; [|reflexivity].
    cbv zeta. rewrite own_other.
    pose proof (signed_cancel (Bool.eqb (color piece) (color_of true))
                  (Zq (PIECE_VALUES (piece_type piece)
                       + table_at (get_piece_table (piece_type piece) (color piece))
                                  (square_rank sq) (square_file sq)))).
    pose proof (signed_cancel (Bool.eqb (color piece) (color_of true))
                  (Zq (Z.of_nat (length (legal_moves (with_turn b (color piece)))) * 2))).
    lra.
  - intros sq. destruct (piece_at b sq); reflexivity.
Qed.

Lemma bishop_pair_term_cancels :
  (bishop_pair_term b true + bishop_pair_term b false == 0)%Q.
Proof.
  unfold bishop_pair_term, signed. cbn [negb].
  destruct (2 <=? count_bishops b WHITE); destruct (2 <=? count_bishops b BLACK); ring.
Qed.

Lemma rook_connection_term_cancels :
  (rook_connection_term b true + rook_connection_term b false == 0)%Q.
Proof.
  unfold rook_connection_term.
  pose proof (sum_Q_cancel (white_rook_pair b true) (white_rook_pair b false)
                           (index_pairs (rooks_of b WHITE))) as Hw.
  pose proof (sum_Q_cancel (black_rook_pair b true) (black_rook_pair b false)
                           (index_pairs (rooks_of b BLACK))) as Hb.
  assert (forall p, white_rook_pair b true p + white_rook_pair b false p == 0)%Q as Hwp.
  { intros [sq1 sq2]. unfold white_rook_pair, signed. cbn [negb].
    destruct (square_rank sq1 =? square_rank sq2);
      [|destruct (square_file sq1 =? square_file sq2)];
      try destruct (_is_path_clear b sq1 sq2); ring. }
  assert (forall p, black_rook_pair b true p + black_rook_pair b false p == 0)%Q as Hbp.
  { intros [sq1 sq2]. unfold black_rook_pair, signed. cbn [negb].
    destruct (square_rank sq1 =? square_rank sq2);
      [|destruct (square_file sq1 =? square_file sq2)];
      try destruct (_is_path_clear b sq1 sq2); ring. }
  specialize (Hw Hwp). specialize (Hb Hbp). lra.
Qed.

Lemma connected_pawn_cancels (file_index rank_index : Z) :
  (connected_pawn b true file_index rank_index
   + connected_pawn b false file_index rank_index == 0)%Q.
Proof.
  unfold connected_pawn.
  destruct (piece_at b (square file_index rank_index)) as [pawn|]; [|reflexivity].
  destruct (PieceType_eqb (piece_type pawn) PAWN); [|reflexivity].
  cbv zeta. rewrite own_other.
  pose proof (signed_cancel (Bool.eqb (color pawn) (color_of true)) 5).
  repeat match goal with
         | |- context [if ?c then signed _ _ else _] => destruct c
         end; lra.
Qed.

Lemma pawn_structure_term_cancels :
  (pawn_structure_term b true + pawn_structure_term b false == 0)%Q.
Proof.
  unfold pawn_structure_term. apply sum_Q_cancel. intros file_index.
  unfold pawn_file_term.
  pose proof (sum_Q_cancel (connected_pawn b true file_index)
                           (connected_pawn b false file_index) (range 0 8)
                           (connected_pawn_cancels file_index)).
  unfold signed. cbn [negb].
  destruct (1 <? pawns_in_file b WHITE file_index);
    destruct (1 <? pawns_in_file b BLACK file_index);
    destruct (is_isolated b WHITE file_index);
    destruct (is_isolated b BLACK file_index); lra.
Qed.

Lemma white_king_term_residue :
  (white_king_term b true + white_king_term b false
   == 2 * open_file_penalty_of b WHITE)%Q.
Proof.
  unfold white_king_term, open_file_penalty_of.
  destruct (truthy_square (king b WHITE)) as [k|]; [|reflexivity].
  pose proof (signed_cancel true (Zq (pawn_shield b WHITE (-1) k))) as Hshield.
  cbn [negb] in Hshield.
  destruct (king_on_open_file b WHITE k); destruct (is_check b); lra.
Qed.

Lemma black_king_term_residue :
  (black_king_term b true + black_king_term b false
   == 2 * open_file_penalty_of b BLACK)%Q.
Proof.
  unfold black_king_term, open_file_penalty_of.
  destruct (truthy_square (king b BLACK)) as [k|]; [|reflexivity].
  pose proof (signed_cancel true (Zq (pawn_shield b BLACK 1 k))) as Hshield.
  cbn [negb] in *.
  destruct (king_on_open_file b BLACK k); destruct (is_check b); lra.
Qed.

Lemma center_control_term_cancels :
  (center_control_term b true + center_control_term b false == 0)%Q.
Proof.
  unfold center_control_term. apply sum_Q_cancel. intros sq.
  destruct (piece_at b sq) as [piece|]; [|reflexivity].
  rewrite own_other. apply signed_cancel.
Qed.

Lemma rook_files_term_cancels :
  (rook_files_term b true + rook_files_term b false == 0)%Q.
Proof.
  unfold rook_files_term. apply sum_Q_cancel. intros file_idx.
  unfold rook_file_term, signed, rook_open_semi_file_bonus. cbn [negb]. cbv zeta.
  destruct (file_has b file_idx (mkPiece ROOK WHITE));
    destruct (file_has b file_idx (mkPiece ROOK BLACK));
    destruct (file_has b file_idx (mkPiece PAWN WHITE));
    destruct (file_has b file_idx (mkPiece PAWN BLACK));
    cbn [negb andb]; lra.
Qed.

Lemma passed_pawn_term_cancels :
  (passed_pawn_term b true + passed_pawn_term b false == 0)%Q.
Proof.
  unfold passed_pawn_term. apply sum_Q_cancel. intros sq.
  destruct (piece_at b sq) as [piece|]; [|reflexivity].
  destruct (PieceType_eqb (piece_type piece) PAWN && _is_passed_pawn b sq (color piece));
    [|reflexivity].
  cbv zeta. rewrite own_other. apply signed_cancel.
Qed.

Lemma knight_outpost_term_cancels :
  (knight_outpost_term b true + knight_outpost_term b false == 0)%Q.
Proof.
  unfold knight_outpost_term. apply sum_Q_cancel. intros sq.
  destruct (piece_at b sq) as [piece|]; [|reflexivity].
  destruct (PieceType_eqb (piece_type piece) KNIGHT && existsb (Z.eqb sq) central_squares);
    [|reflexivity].
  cbv zeta.
  match goal with
  | |- context [if ?c then signed _ _ else _] => destruct c
  end; [|reflexivity].
  rewrite own_other. apply signed_cancel.
Qed.

End Antisymmetry.

(** X4: the two evaluations of a board, from white's and from black's
    perspective, add up to the hanging-piece penalties of both
    perspectives plus twice the open-file penalties of the two kings;
    every other term of [evaluate_board] changes sign with the
    perspective.  So where no piece hangs and no king stands on a file
    without an own pawn, swapping the perspective negates the score. *)
Theorem evaluation_sum_of_both_perspectives {Board} `{RulesProvider Board} (b : Board) :
  (evaluate_board b true + evaluate_board b false
   == hanging_total b true + hanging_total b false
      + 2 * (open_file_penalty_of b WHITE + open_file_penalty_of b BLACK))%Q
  /\ ((hanging_total b true == 0)%Q -> (hanging_total b false == 0)%Q ->
      (open_file_penalty_of b WHITE == 0)%Q -> (open_file_penalty_of b BLACK == 0)%Q ->
      (evaluate_board b true == - evaluate_board b false)%Q).
Proof.
  assert (Hsum : (evaluate_board b true + evaluate_board b false
                  == hanging_total b true + hanging_total b false
                     + 2 * (open_file_penalty_of b WHITE + open_file_penalty_of b BLACK))%Q).
  { unfold evaluate_board, king_safety_term.
    pose proof (pieces_term_residue b).
    pose proof (bishop_pair_term_cancels b).
    pose proof (rook_connection_term_cancels b).
    pose proof (pawn_structure_term_cancels b).
    pose proof (white_king_term_residue b).
    pose proof (black_king_term_residue b).
    pose proof (center_control_term_cancels b).
    pose proof (rook_files_term_cancels b).
    pose proof (passed_pawn_term_cancels b).
    pose proof (knight_outpost_term_cancels b).
    rewrite !development_term_zero. lra. }
  split; [exact Hsum|].
  intros Hw Hb Hkw Hkb. lra.
Qed.

Lemma evaluation_sum_of_both_perspectives_witness :
  let b := Positions.board_of
             "rnbqkbnr/pppppppp/8/8/8/8/PPPPPPPP/RNBQKBNR w KQkq - 0 1" in
  (evaluate_board b true == - evaluate_board b false)%Q.
Proof.
  intros b.
  apply (proj2 (evaluation_sum_of_both_perspectives b)); vm_compute; reflexivity.
Defined.

(** ** Move ordering *)

(** In a list sorted by decreasing key an element of larger key stands
    before every element of smaller key. *)
Lemma sorted_larger_key_first {A} (key : A -> Z) (l : list A) (x y : A) :
  StronglySorted (key_ge key) l ->
  In x l -> In y l -> key y < key x ->
  exists l1 l2 l3, l = l1 ++ x :: l2 ++ y :: l3.
Proof.
  intros Hsorted Hx Hy Hlt.
  induction Hsorted as [|z l Hs IH Hz].
  - contradiction.
  - destruct Hx as [->|Hx].
    + destruct Hy as [->|Hy]; [lia|].
      apply in_split in Hy as (l2 & l3 & ->).
      exists [], l2, l3. reflexivity.
    + destruct Hy as [->|Hy].
      * rewrite Forall_forall in Hz.
        specialize (Hz x (proj2 (list_elem_of_In _ _) Hx)).
        unfold key_ge in Hz. lia.
      * destruct (IH Hx Hy) as (l1 & l2 & l3 & ->).
        exists (z :: l1), l2, l3. reflexivity.
Qed.

(** X5: a capture of a queen by a pawn has an ordering key of at least
    800 and a move that is no capture one of at most 100, so in the
    ordered move list of [minimax] and of the root the capture is tried
    before every such quiet move, checks included. *)
Theorem pawn_takes_queen_is_tried_before_quiet_moves {Board} `{RulesProvider Board}
        (b : Board) (capture quiet : Move) (moves : list Move) :
  is_capture b capture = true ->
  (exists c, piece_at b (to_square capture) = Some (mkPiece QUEEN c)) ->
  (exists c, piece_at b (from_square capture) = Some (mkPiece PAWN c)) ->
  is_capture b quiet = false ->
  In capture moves -> In quiet moves ->
  800 <= ordering_key b capture
  /\ ordering_key b quiet <= 100
  /\ exists l1 l2 l3,
       sort_desc (ordering_key b) moves = l1 ++ capture :: l2 ++ quiet :: l3.
Proof.
  intros Hcap [cq Hqueen] [cp Hpawn] Hquiet Hinc Hinq.
  assert (Hk : 800 <= ordering_key b capture).
  { unfold ordering_key, calculate_mvl_lva. rewrite Hcap, Hqueen, Hpawn.
    cbn. destruct (gives_check b capture); lia. }
  assert (Hq : ordering_key b quiet <= 100).
  { unfold ordering_key, calculate_mvl_lva. rewrite Hquiet.
    cbn. destruct (gives_check b quiet); lia. }
  split; [exact Hk|]. split; [exact Hq|].
  apply (sorted_larger_key_first (ordering_key b)).
  - apply sort_desc_sorted.
  - apply sort_desc_In. exact Hinc.
  - apply sort_desc_In. exact Hinq.
  - lia.
Qed.

Lemma pawn_takes_queen_is_tried_before_quiet_moves_witness :
  let b := Positions.board_of "4k3/8/8/3q4/4P3/8/8/4K3 w - - 0 1" in
  exists l1 l2 l3,
    sort_desc (ordering_key b) (legal_moves b)
    = l1 ++ mkMove 28 35 None :: l2 ++ mkMove 4 5 None :: l3.
Proof.
  intros b.
  apply (pawn_takes_queen_is_tried_before_quiet_moves
           b (mkMove 28 35 None) (mkMove 4 5 None) (legal_moves b)).
  - vm_compute. reflexivity.
  - exists BLACK. vm_compute. reflexivity.
  - exists WHITE. vm_compute. reflexivity.
  - vm_compute. reflexivity.
  - vm_compute. repeat (try (left; reflexivity); right).
  - vm_compute. repeat (try (left; reflexivity); right).
Defined.

(** ** The order of scores *)

Lemma score_leb_spec (x y : Score) :
  score_leb x y = true <->
  match x, y with
  | NegInf, _ => True
  | _, PosInf => True
  | Fin p, Fin q => (p <= q)%Q
  | _, _ => False
  end.
Proof.
  unfold score_leb.
  destruct x as [|p|], y as [|q|]; cbn; try tauto; try (split; [discriminate|tauto]).
  rewrite negb_involutive. apply Qle_bool_iff.
Qed.

Lemma score_leb_refl (x : Score) : score_leb x x = true.
Proof. apply score_leb_spec. destruct x; try exact I. apply Qle_refl. Qed.

Lemma score_leb_trans (x y z : Score) :
  score_leb x y = true -> score_leb y z = true -> score_leb x z = true.
Proof.
  rewrite !score_leb_spec.
  destruct x, y, z; try tauto. apply Qle_trans.
Qed.

Lemma score_ltb_leb (x y : Score) : score_ltb x y = true -> score_leb x y = true.
Proof.
  intros Hlt. apply score_leb_spec.
  destruct x as [|p|], y as [|q|]; cbn in Hlt; try discriminate Hlt; try exact I.
  apply negb_true_iff in Hlt.
  destruct (Qlt_le_dec q p) as [Hqp|Hpq]; [|exact Hpq].
  apply Qlt_le_weak in Hqp. apply Qle_bool_iff in Hqp. congruence.
Qed.

Lemma score_leb_false (x y : Score) : score_leb x y = false -> score_leb y x = true.
Proof.
  unfold score_leb at 1. intros Hn. apply negb_false_iff in Hn.
  apply score_ltb_leb, Hn.
Qed.

(** ** The quiescence search *)

Section QuiescenceFacts.
Context {Board : Type} `{RulesProvider Board}.

Lemma quiescence_loop_in_window (rec : Score -> Score -> M Board Score) :
  forall moves alpha beta st s st',
    score_leb alpha beta = true ->
    quiescence_loop rec moves alpha beta st = (inr s, st') ->
    score_leb alpha s = true /\ score_leb s beta = true.
Proof.
  induction moves as [|m rest IH]; intros alpha beta st s st' Hwin Hrun.
  - cbn in Hrun. injection Hrun as <- _. split; [apply score_leb_refl | exact Hwin].
  - cbn [quiescence_loop] in Hrun.
    apply bind_returns in Hrun as ([] & st1 & _ & Hrun).
    apply bind_returns in Hrun as (r & st2 & _ & Hrun).
    apply bind_returns in Hrun as ([] & st3 & _ & Hrun).
    destruct (score_leb beta (score_neg r)) eqn:Hcut.
    + injection Hrun as <- _. split; [exact Hwin | apply score_leb_refl].
    + apply score_leb_false in Hcut.
      destruct (score_ltb alpha (score_neg r)) eqn:Hraise.
      * apply IH in Hrun as [Hlo Hhi]; [|exact Hcut].
        split; [|exact Hhi].
        eapply score_leb_trans; [apply score_ltb_leb, Hraise | exact Hlo].
      * apply IH in Hrun; [exact Hrun | exact Hwin].
Qed.

End QuiescenceFacts.

(** X6: [quiescence_search] is fail-hard and never does worse than
    standing pat: called with alpha <= beta, the score it returns lies in
    the window, alpha <= score <= beta, and is at least the static
    evaluation brought into the window. *)
Theorem quiescence_result_lies_in_window {Board} `{RulesProvider Board}
        (fuel : nat) (ai_color_is_white : bool) (alpha beta : Score)
        (st : State Board) (s : Score) (st' : State Board) :
  score_leb alpha beta = true ->
  quiescence_search fuel ai_color_is_white alpha beta st = (inr s, st') ->
  score_leb alpha s = true
  /\ score_leb s beta = true
  /\ score_leb (stand_pat_in_window
                  (Fin (evaluate_board (board st) ai_color_is_white)) alpha beta) s
     = true.
Proof.
  intros Hwin Hrun. destruct fuel as [|fuel]; [discriminate Hrun|].
  cbn [quiescence_search] in Hrun.
  apply bind_returns in Hrun as (b & st1 & Hget & Hrun).
  injection Hget as <- <-. unfold stand_pat_in_window.
  destruct (score_leb beta (Fin (evaluate_board (board st) ai_color_is_white))) eqn:Hpat.
  - injection Hrun as <- _.
    split; [exact Hwin|]. split; apply score_leb_refl.
  - apply score_leb_false in Hpat.
    destruct (score_ltb alpha (Fin (evaluate_board (board st) ai_color_is_white)))
             eqn:Hraise.
    + apply quiescence_loop_in_window in Hrun as [Hlo Hhi]; [|exact Hpat].
      split; [|split; [exact Hhi | exact Hlo]].
      eapply score_leb_trans; [apply score_ltb_leb, Hraise | exact Hlo].
    + apply quiescence_loop_in_window in Hrun as [Hlo Hhi]; [|exact Hwin].
      split; [exact Hlo|]. split; [exact Hhi | exact Hlo].
Qed.

Lemma quiescence_result_lies_in_window_witness :
  let st := mkState (Positions.board_of Positions.king_pawn_white) ∅ in
  fst (quiescence_search 3 true (Fin 0) (Fin 100) st) = inr (Fin 100)
  /\ score_leb (Fin 0) (Fin 100) = true
  /\ score_leb (Fin 100) (Fin 100) = true
  /\ score_leb (stand_pat_in_window (Fin (evaluate_board (board st) true))
                                    (Fin 0) (Fin 100)) (Fin 100) = true.
Proof.
  intros st.
  assert (Hwin : score_leb (Fin 0) (Fin 100) = true) by reflexivity.
  assert (Hrun : fst (quiescence_search 3 true (Fin 0) (Fin 100) st) = inr (Fin 100))
    by (vm_compute; reflexivity).
  split; [exact Hrun|].
  apply (quiescence_result_lies_in_window 3 true (Fin 0) (Fin 100) st (Fin 100)
           (snd (quiescence_search 3 true (Fin 0) (Fin 100) st)) Hwin).
  rewrite <- Hrun. apply surjective_pairing.
Defined.

(** ** What the search does to the transposition table *)

Section Frames.
Context {Board : Type} `{RulesProvider Board}.
Variable R : State Board -> State Board -> Prop.
Hypothesis R_table : forall st st' : State Board,
    transposition_table st' = transposition_table st -> R st st'.
Hypothesis R_trans : forall st1 st2 st3 : State Board,
    R st1 st2 -> R st2 st3 -> R st1 st3.

Lemma always_ret {A} (a : A) : always R (ret a).
Proof. intros st. apply R_table. reflexivity. Qed.

Lemma always_raise {A} (e : Exn) : always R (raise (A := A) e).
Proof. intros st. apply R_table. reflexivity. Qed.

Lemma always_update_board (f : Board -> Board) : always R (update_board f).
Proof. intros st. apply R_table. reflexivity. Qed.

Lemma always_bind {A B} (m : M Board A) (k : A -> M Board B) :
  always R m -> (forall a, always R (k a)) -> always R (bind m k).
Proof.
  intros Hm Hk st. unfold bind.
  specialize (Hm st). destruct (m st) as [[e|a] st1]; cbn in *.
  - exact Hm.
  - eapply R_trans; [exact Hm | apply Hk].
Qed.

Lemma always_quiescence_loop (rec : Score -> Score -> M Board Score) :
  (forall alpha beta, always R (rec alpha beta)) ->
  forall moves alpha beta, always R (quiescence_loop rec moves alpha beta).
Proof.
  intros Hrec moves. induction moves as [|m rest IH]; intros alpha beta.
  - apply always_ret.
  - cbn [quiescence_loop].
    apply always_bind; [apply always_update_board|]. intros _.
    apply always_bind; [apply Hrec|]. intros r.
    apply always_bind; [apply always_update_board|]. intros _.
    destruct (score_leb beta (score_neg r)); [apply always_ret | apply IH].
Qed.

Lemma always_quiescence_search (fuel : nat) :
  forall ai alpha beta, always R (quiescence_search fuel ai alpha beta).
Proof.
  induction fuel as [|fuel IH]; intros ai alpha beta.
  - apply always_raise.
  - cbn [quiescence_search].
    apply always_bind; [intros st; apply R_table; reflexivity|]. intros b.
    destruct (score_leb beta (Fin (evaluate_board b ai))); [apply always_ret|].
    apply always_quiescence_loop. intros a' b'. apply IH.
Qed.

Lemma always_minimax_loop (rec : Score -> Score -> M Board Score) (ai : bool) :
  (forall alpha beta, always R (rec alpha beta)) ->
  forall moves alpha beta best flag,
    always R (minimax_loop rec ai moves alpha beta best flag).
Proof.
  intros Hrec moves. induction moves as [|m rest IH]; intros alpha beta best flag.
  - apply always_ret.
  - cbn [minimax_loop].
    apply always_bind; [apply always_update_board|]. intros _.
    apply always_bind; [apply Hrec|]. intros score.
    apply always_bind; [apply always_update_board|]. intros _.
    match goal with
    | |- always R (if ?c then _ else _) => destruct c
    end; [apply always_ret | apply IH].
Qed.

End Frames.

Lemma table_grows_trans {Board} (st1 st2 st3 : State Board) :
  table_grows st1 st2 -> table_grows st2 st3 -> table_grows st1 st3.
Proof. intros H12 H23 key Hkey. apply H23, H12, Hkey. Qed.

Lemma table_grows_same {Board} (st st' : State Board) :
  transposition_table st' = transposition_table st -> table_grows st st'.
Proof. intros Heq key Hkey. rewrite Heq. exact Hkey. Qed.

Lemma always_tt_store {Board} (key : string) (entry : Entry) :
  always (Board := Board) table_grows (tt_store key entry).
Proof.
  intros st k Hk. cbn.
  destruct (decide (key = k)) as [->|Hne].
  - rewrite lookup_insert_eq. eexists. reflexivity.
  - rewrite lookup_insert_ne by exact Hne. exact Hk.
Qed.

Ltac grows_side :=
  try exact (@table_grows_same _); try exact (@table_grows_trans _).

Lemma always_get_grows {Board A} (f : State Board -> A) :
  always table_grows (fun st => (inr (f st), st)).
Proof. intros st. apply table_grows_same. reflexivity. Qed.

Lemma always_store_ret {Board} (key : string) (entry : Entry) (score : Score) :
  always (Board := Board) table_grows (let* _ := tt_store key entry in ret score).
Proof.
  apply always_bind; grows_side; [apply always_tt_store|].
  intros _. apply always_ret; grows_side.
Qed.

Lemma always_minimax_grows {Board} `{RulesProvider Board} (fuel : nat) :
  forall depth ai alpha beta,
    always table_grows (minimax fuel depth ai alpha beta).
Proof.
  induction fuel as [|fuel IH]; intros depth ai alpha beta.
  - apply always_raise; grows_side.
  - cbn [minimax].
    apply always_bind; grows_side; [apply (always_get_grows board)|]. intros b.
    apply always_bind; grows_side; [apply (always_get_grows transposition_table)|].
    intros table.
    destruct (tt_probe table (fen b) depth alpha beta); [apply always_ret; grows_side|].
    unfold minimax_node.
    apply always_bind; grows_side; [apply (always_get_grows board)|]. intros b'.
    destruct (depth =? 0).
    { apply always_bind; grows_side.
      - apply always_quiescence_search; grows_side.
      - intros score. apply always_store_ret. }
    destruct (is_checkmate b'); [apply always_store_ret|].
    destruct (is_draw b'); [apply always_store_ret|].
    apply always_bind; grows_side.
    + apply always_minimax_loop; grows_side.
      intros a' b''. apply IH.
    + intros [best flag]. apply always_store_ret.
Qed.

(** X7: [quiescence_search] never touches the transposition table: the
    table after the call is the table before it, whether the call
    returns or raises. *)
Theorem quiescence_leaves_table_untouched {Board} `{RulesProvider Board}
        (fuel : nat) (ai_color_is_white : bool) (alpha beta : Score)
        (st : State Board) :
  transposition_table (snd (quiescence_search fuel ai_color_is_white alpha beta st))
  = transposition_table st.
Proof.
  apply (always_quiescence_search table_kept).
  - intros st1 st2 Heq. exact Heq.
  - intros st1 st2 st3 H12 H23. unfold table_kept in *. congruence.
Qed.

(** X8: [minimax] only ever adds or overwrites entries: every key the
    table holds before a call is still a key after it, whether the call
    returns or raises. *)
Theorem minimax_never_drops_a_key {Board} `{RulesProvider Board}
        (fuel : nat) (depth : Z) (ai_color_is_white : bool) (alpha beta : Score)
        (st : State Board) (key : string) :
  is_Some (transposition_table st !! key) ->
  is_Some (transposition_table
             (snd (minimax fuel depth ai_color_is_white alpha beta st)) !! key).
Proof. apply always_minimax_grows. Qed.

Lemma minimax_never_drops_a_key_witness :
  let b := Positions.board_of Positions.king_pawn_white in
  let st := mkState b (<["elsewhere" := (7, Fin 1, TT_EXACT)]> ∅) in
  is_Some (transposition_table (snd (minimax 3 1 true NegInf PosInf st)) !! "elsewhere").
Proof.
  intros b st. apply minimax_never_drops_a_key.
  cbn. rewrite lookup_insert_eq. eexists. reflexivity.
Defined.

(** X9: when [minimax] returns a score for a position at some depth, the
    table afterwards holds an entry for that position with that score
    and a stored depth of at least that depth. *)
Theorem minimax_leaves_an_entry_for_its_node {Board} `{RulesProvider Board}
        (fuel : nat) (depth : Z) (ai_color_is_white : bool) (alpha beta : Score)
        (st : State Board) (s : Score) (st' : State Board) :
  minimax fuel depth ai_color_is_white alpha beta st = (inr s, st') ->
  exists stored_depth flag,
    transposition_table st' !! fen (board st) = Some (stored_depth, s, flag)
    /\ depth <= stored_depth.
Proof.
  intros Hrun. destruct fuel as [|fuel]; [discriminate Hrun|].
  rewrite minimax_unfold in Hrun.
  destruct (tt_probe _ _ _ _ _) as [stored|] eqn:Hprobe.
  - injection Hrun as <- <-.
    apply tt_probe_Some in Hprobe as (d & f & Hlook & Hle & _).
    exists d, f. split; [exact Hlook | exact Hle].
  - unfold minimax_node in Hrun.
    apply bind_returns in Hrun as (b & st1 & Hget & Hrun).
    injection Hget as <- <-.
    assert (Hstore : forall (flag : Flag) (score : Score) (st2 : State Board),
               (let* _ := tt_store (fen (board st)) (depth, score, flag) in ret score) st2
               = (inr s, st') ->
               exists stored_depth flag',
                 transposition_table st' !! fen (board st) = Some (stored_depth, s, flag')
                 /\ depth <= stored_depth).
    { intros flag score st2 Hs.
      apply bind_returns in Hs as ([] & st3 & Hst & Hs).
      apply tt_store_returns in Hst. subst st3. injection Hs as <- <-.
      exists depth, flag. split; [apply lookup_insert_eq | lia]. }
    destruct (depth =? 0).
    { apply bind_returns in Hrun as (score & st2 & _ & Hrun).
      eapply Hstore, Hrun. }
    destruct (is_checkmate (board st)); [eapply Hstore, Hrun|].
    destruct (is_draw (board st)); [eapply Hstore, Hrun|].
    apply bind_returns in Hrun as ([best flag] & st2 & _ & Hrun).
    eapply Hstore, Hrun.
Qed.

Lemma minimax_leaves_an_entry_for_its_node_witness :
  let st := mkState (Positions.board_of Positions.king_pawn_white) ∅ in
  exists stored_depth flag,
    transposition_table (snd (minimax 3 1 true NegInf PosInf st)) !! fen (board st)
    = Some (stored_depth, Fin (-199), flag)
    /\ 1 <= stored_depth.
Proof.
  intros st.
  apply (minimax_leaves_an_entry_for_its_node 3 1 true NegInf PosInf st).
  assert (Hrun : fst (minimax 3 1 true NegInf PosInf st) = inr (Fin (-199)))
    by (vm_compute; reflexivity).
  rewrite <- Hrun. apply surjective_pairing.
Defined.

(** ** The exceptions of the search *)

Section Raises.
Context {Board : Type} `{RulesProvider Board}.
Variable P : Exn -> Prop.

Lemma raises_only_bind {A B} (m : M Board A) (k : A -> M Board B) :
  raises_only P m -> (forall a, raises_only P (k a)) -> raises_only P (bind m k).
Proof.
  intros Hm Hk st e st' Hrun. unfold bind in Hrun.
  destruct (m st) as [[e1|a] st1] eqn:Hmst.
  - injection Hrun as <- <-. eapply Hm, Hmst.
  - eapply Hk, Hrun.
Qed.

Lemma raises_only_ret {A} (a : A) : raises_only P (ret (Board := Board) a).
Proof. intros st e st' Hrun. discriminate Hrun. Qed.

Lemma raises_only_update (f : Board -> Board) : raises_only P (update_board f).
Proof. intros st e st' Hrun. discriminate Hrun. Qed.

Lemma raises_only_store (key : string) (entry : Entry) :
  raises_only P (tt_store (Board := Board) key entry).
Proof. intros st e st' Hrun. discriminate Hrun. Qed.

Lemma raises_only_quiescence_loop (rec : Score -> Score -> M Board Score) :
  (forall alpha beta, raises_only P (rec alpha beta)) ->
  forall moves alpha beta, raises_only P (quiescence_loop rec moves alpha beta).
Proof.
  intros Hrec moves. induction moves as [|m rest IH]; intros alpha beta.
  - apply raises_only_ret.
  - cbn [quiescence_loop].
    apply raises_only_bind; [apply raises_only_update|]. intros _.
    apply raises_only_bind; [apply Hrec|]. intros r.
    apply raises_only_bind; [apply raises_only_update|]. intros _.
    destruct (score_leb beta (score_neg r)); [apply raises_only_ret | apply IH].
Qed.

Lemma raises_only_minimax_loop (rec : Score -> Score -> M Board Score) (ai : bool) :
  (forall alpha beta, raises_only P (rec alpha beta)) ->
  forall moves alpha beta best flag,
    raises_only P (minimax_loop rec ai moves alpha beta best flag).
Proof.
  intros Hrec moves. induction moves as [|m rest IH]; intros alpha beta best flag.
  - apply raises_only_ret.
  - cbn [minimax_loop].
    apply raises_only_bind; [apply raises_only_update|]. intros _.
    apply raises_only_bind; [apply Hrec|]. intros score.
    apply raises_only_bind; [apply raises_only_update|]. intros _.
    match goal with
    | |- raises_only P (if ?c then _ else _) => destruct c
    end; [apply raises_only_ret | apply IH].
Qed.

Lemma raises_only_root_loop (search : M Board Score) (ai : bool) :
  raises_only P search ->
  forall moves best_score best_move,
    raises_only P (root_loop search ai moves best_score best_move).
Proof.
  intros Hsearch moves. induction moves as [|m rest IH]; intros best_score best_move.
  - apply raises_only_ret.
  - cbn [root_loop].
    apply raises_only_bind; [apply raises_only_update|]. intros _.
    apply raises_only_bind; [exact Hsearch|]. intros score.
    apply raises_only_bind; [apply raises_only_update|]. intros _.
    match goal with
    | |- raises_only P (if ?c then _ else _) => destruct c
    end; apply IH.
Qed.

End Raises.

Section OnlyRecursionError.
Context {Board : Type} `{RulesProvider Board}.

Lemma quiescence_raises_only (fuel : nat) :
  forall ai alpha beta,
    raises_only is_RecursionError (quiescence_search fuel ai alpha beta).
Proof.
  induction fuel as [|fuel IH]; intros ai alpha beta.
  - intros st e st' Hrun. injection Hrun as <- _. reflexivity.
  - cbn [quiescence_search].
    apply raises_only_bind; [intros st e st' Hrun; discriminate Hrun|]. intros b.
    destruct (score_leb beta (Fin (evaluate_board b ai))); [apply raises_only_ret|].
    apply raises_only_quiescence_loop. intros a' b'. apply IH.
Qed.

Lemma store_ret_raises_only (key : string) (entry : Entry) (score : Score) :
  raises_only (Board := Board) is_RecursionError
              (let* _ := tt_store key entry in ret score).
Proof.
  apply raises_only_bind; [apply raises_only_store|]. intros _. apply raises_only_ret.
Qed.

Lemma minimax_raises_only (fuel : nat) :
  forall depth ai alpha beta,
    raises_only is_RecursionError (minimax fuel depth ai alpha beta).
Proof.
  induction fuel as [|fuel IH]; intros depth ai alpha beta.
  - intros st e st' Hrun. injection Hrun as <- _. reflexivity.
  - cbn [minimax].
    apply raises_only_bind; [intros st e st' Hrun; discriminate Hrun|]. intros b.
    apply raises_only_bind; [intros st e st' Hrun; discriminate Hrun|]. intros table.
    destruct (tt_probe table (fen b) depth alpha beta); [apply raises_only_ret|].
    unfold minimax_node.
    apply raises_only_bind; [intros st e st' Hrun; discriminate Hrun|]. intros b'.
    destruct (depth =? 0).
    { apply raises_only_bind; [apply quiescence_raises_only|].
      intros score. apply store_ret_raises_only. }
    destruct (is_checkmate b'); [apply store_ret_raises_only|].
    destruct (is_draw b'); [apply store_ret_raises_only|].
    apply raises_only_bind.
    + apply raises_only_minimax_loop. intros a' b''. apply IH.
    + intros [best flag]. apply store_ret_raises_only.
Qed.

Lemma root_search_raises_only (fuel : nat) (depth : Z) (ai : bool) :
  raises_only is_RecursionError (root_search fuel depth ai).
Proof.
  unfold root_search.
  apply raises_only_bind; [intros st e st' Hrun; discriminate Hrun|]. intros _.
  apply raises_only_bind; [intros st e st' Hrun; discriminate Hrun|]. intros b.
  destruct (legal_moves b) as [|m0 ms]; [apply raises_only_ret|].
  apply raises_only_bind.
  - apply raises_only_root_loop, minimax_raises_only.
  - intros [bs bm]. apply raises_only_ret.
Qed.

End OnlyRecursionError.

(** X10: whatever the rules provider answers, the only exception that
    [quiescence_search], [minimax] and the root search raise is
    [RecursionError], when the nesting of calls exceeds the limit. *)
Theorem search_raises_nothing_but_RecursionError {Board} `{RulesProvider Board}
        (fuel : nat) (st : State Board) (e : Exn) (st' : State Board) :
  (forall ai alpha beta,
      quiescence_search fuel ai alpha beta st = (inl e, st') -> e = RecursionError)
  /\ (forall depth ai alpha beta,
         minimax fuel depth ai alpha beta st = (inl e, st') -> e = RecursionError)
  /\ (forall depth ai,
         root_search fuel depth ai st = (inl e, st') -> e = RecursionError).
Proof.
  split; [|split].
  - intros ai alpha beta Hrun. eapply quiescence_raises_only, Hrun.
  - intros depth ai alpha beta Hrun. eapply minimax_raises_only, Hrun.
  - intros depth ai Hrun. eapply root_search_raises_only, Hrun.
Qed.

Lemma search_raises_nothing_but_RecursionError_witness :
  let st := mkState (Positions.board_of Positions.king_pawn_white) ∅ in
  exists e, fst (minimax 1 1 true NegInf PosInf st) = inl e /\ e = RecursionError.
Proof.
  intros st.
  destruct (minimax 1 1 true NegInf PosInf st) as [[e|s] st'] eqn:Hrun.
  - exists e. split; [reflexivity|].
    apply (proj1 (proj2 (search_raises_nothing_but_RecursionError 1 st e st'))
                 1 true NegInf PosInf Hrun).
  - exfalso. apply (f_equal fst) in Hrun. vm_compute in Hrun. discriminate Hrun.
Defined.

(** ** The answers of the endpoint *)



Section RootFacts.
Context {Board : Type} `{RulesProvider Board}.

(** The move that the loop over the root moves hands back is one of the
    moves it was given, unless it is the one it started with. *)
Lemma root_loop_selects_given_move (search : M Board Score) (ai : bool) :
  forall moves best_score best_move st s m st',
    root_loop search ai moves best_score best_move st = (inr (s, Some m), st') ->
    In m moves \/ best_move = Some m.
Proof.
  induction moves as [|m0 rest IH]; intros best_score best_move st s m st' Hrun.
  - cbn in Hrun. injection Hrun as _ Hbest _. right. exact Hbest.
  - cbn [root_loop] in Hrun.
    apply bind_returns in Hrun as ([] & st1 & _ & Hrun).
    apply bind_returns in Hrun as (score & st2 & _ & Hrun).
    apply bind_returns in Hrun as ([] & st3 & _ & Hrun).
    match type of Hrun with
    | (if ?c then _ else _) _ = _ => destruct c
    end; apply IH in Hrun as [Hin|Heq].
    + left. right. exact Hin.
    + injection Heq as <-. left. left. reflexivity.
    + left. right. exact Hin.
    + right. exact Heq.
Qed.

Lemma root_search_selects_legal_move (fuel : nat) (depth : Z) (ai : bool)
      (st : State Board) (s : Score) (m : Move) (st' : State Board) :
  root_search fuel depth ai st = (inr (Searched s (Some m)), st') ->
  In m (legal_moves (board st)).
Proof.
  unfold root_search. intros Hrun.
  apply bind_returns in Hrun as ([] & st1 & Hclear & Hrun).
  injection Hclear as <-.
  apply bind_returns in Hrun as (b & st1 & Hget & Hrun).
  injection Hget as <- <-. cbn [board] in Hrun.
  destruct (legal_moves (board st)) as [|m0 ms] eqn:Hmoves; [discriminate Hrun|].
  apply bind_returns in Hrun as ([bs bm] & st2 & Hloop & Hrun).
  injection Hrun as -> -> ->.
  apply root_loop_selects_given_move in Hloop as [Hin|Hnone]; [|discriminate Hnone].
  apply sort_desc_In in Hin. exact Hin.
Qed.

End RootFacts.

(** X12: a response with success = true is only given when the FEN
    string parses to a board on which the game is not over and the side
    to move is the requested colour; the move it names is a legal move
    of that board and no promotion, written as its two square names with
    promotion left empty, with the message "AI found a move." and status
    200.  A promotion is never answered. *)
Theorem successful_response_names_legal_move {Board} `{RulesProvider Board}
        (fuel : nat) (data : Request) (table : Table) :
  success (fst (get_ai_move fuel data table)) = true ->
  exists fen_str color_str (b : Board) (m : Move),
    board_fen data = Some (JString fen_str)
    /\ ai_color data = Some (JString color_str)
    /\ Board_of_fen fen_str = inr b
    /\ is_game_over b = false
    /\ turn b = (if String.eqb (lower color_str) "white" then WHITE else BLACK)
    /\ In m (legal_moves b)
    /\ promotion m = None
    /\ fst (get_ai_move fuel data table)
       = mkResponse true
                    (Some (mkResponseMove (square_name (from_square m))
                                          (square_name (to_square m)) None))
                    "AI found a move." 200.
Proof.
  unfold get_ai_move.
  destruct (falsy (board_fen data) || falsy (ai_color data) || falsy (difficulty data));
    [discriminate|].
  destruct (board_fen data) as [fen_value|]; [|discriminate].
  destruct (ai_color data) as [color_value|]; [|discriminate].
  destruct (difficulty data) as [difficulty_value|]; [|discriminate].
  unfold handle.
  destruct fen_value as [fen_str|]; [|discriminate].
  cbn [Board_of_json].
  destruct (Board_of_fen fen_str) as [e|b] eqn:Hparse; [discriminate|].
  destruct color_value as [color_str|]; [|discriminate].
  unfold handle_board.
  destruct (is_game_over b) eqn:Hover; [discriminate|].
  cbv zeta.
  match goal with
  | |- context [negb (Bool.eqb ?x ?y)] => destruct (Bool.eqb_spec x y) as [Hturn|_]
  end; [|discriminate].
  cbn [negb].
  destruct (root_search _ _ _ _) as [[e|[|bs [m|]]] st] eqn:Hsearch; try discriminate.
  destruct (move_truthy m); [|discriminate].
  destruct (promotion m) eqn:Hpromo; [discriminate|].
  intros _. exists fen_str, color_str, b, m.
  apply root_search_selects_legal_move in Hsearch.
  repeat (split; [first [reflexivity | assumption]|]). reflexivity.
Qed.

Lemma successful_response_names_legal_move_witness :
  let data := mkRequest (Some (JString Positions.king_pawn_white))
                        (Some (JString "White")) (Some (JString "easy")) in
  exists fen_str color_str (b : PyChess.Board) (m : Move),
    board_fen data = Some (JString fen_str)
    /\ ai_color data = Some (JString color_str)
    /\ Board_of_fen fen_str = inr b
    /\ is_game_over b = false
    /\ turn b = (if String.eqb (lower color_str) "white" then WHITE else BLACK)
    /\ In m (legal_moves b)
    /\ promotion m = None
    /\ fst (get_ai_move 3 data ∅)
       = mkResponse true
                    (Some (mkResponseMove (square_name (from_square m))
                                          (square_name (to_square m)) None))
                    "AI found a move." 200.
Proof.
  intros data.
  apply (successful_response_names_legal_move (Board := PyChess.Board) 3 data ∅).
  vm_compute. reflexivity.
Defined.

(** X13: the status of the answer tells what happened: 400 exactly when
    one of the three fields is missing, null or otherwise falsy (the
    empty string included); 500 exactly when all three are present and an
    exception was raised inside the [try] block; 200 otherwise, and
    success = true only with 200.  A failure never carries a move. *)
Theorem status_of_the_response {Board} `{RulesProvider Board}
        (fuel : nat) (data : Request) (table : Table) :
  let response := fst (get_ai_move fuel data table) in
  let missing :=
    falsy (board_fen data) || falsy (ai_color data) || falsy (difficulty data) in
  (status response = 400 <-> missing = true)
  /\ (status response = 500 <->
      missing = false
      /\ exists fen_value color_value difficulty_value e table',
           board_fen data = Some fen_value /\ ai_color data = Some color_value
           /\ difficulty data = Some difficulty_value
           /\ handle fuel fen_value color_value difficulty_value table = (inl e, table'))
  /\ (status response = 200 \/ status response = 400 \/ status response = 500)
  /\ (success response = true -> status response = 200)
  /\ (success response = false -> move response = None).
Proof.
  assert (Hhandle : forall fv cv dv r t,
             handle fuel fv cv dv table = (inr r, t) ->
             status r = 200 /\ (success r = false -> move r = None)).
  { intros fv cv dv r t. unfold handle.
    destruct (Board_of_json fv) as [e|b]; [discriminate|].
    destruct cv as [color_str|]; [|discriminate].
    unfold handle_board.
    destruct (is_game_over b); [intros [= <- _]; split; reflexivity|].
    destruct (negb _); [intros [= <- _]; split; reflexivity|].
    destruct (root_search _ _ _ _) as [[e|[|bs [m|]]] st]; try discriminate;
      try (intros [= <- _]; split; reflexivity).
    destruct (move_truthy m); [|intros [= <- _]; split; reflexivity].
    destruct (promotion m); [discriminate|].
    intros [= <- _]. split; [reflexivity|discriminate]. }
  cbv zeta. unfold get_ai_move.
  destruct (falsy (board_fen data) || falsy (ai_color data) || falsy (difficulty data))
           eqn:Hmissing.
  { cbn. split; [tauto|]. split; [|split; [lia|split; [discriminate|reflexivity]]].
    split; [discriminate|]. intros [Hf _]. discriminate Hf. }
  destruct (board_fen data) as [fv|]; [|discriminate Hmissing].
  destruct (ai_color data) as [cv|];
    [|cbn in Hmissing; rewrite orb_true_r in Hmissing; discriminate Hmissing].
  destruct (difficulty data) as [dv|];
    [|cbn in Hmissing; rewrite orb_true_r in Hmissing; discriminate Hmissing].
  destruct (handle fuel fv cv dv table) as [[e|r] t] eqn:Hrun.
  - cbn. split; [split; discriminate|].
    split; [|split; [lia|split; [discriminate|reflexivity]]].
    split; [|reflexivity].
    intros _. split; [reflexivity|]. exists fv, cv, dv, e, t. auto.
  - destruct (Hhandle fv cv dv r t Hrun) as [Hstatus Hmove]. cbn [fst].
    rewrite Hstatus. split; [split; discriminate|].
    split; [|split; [lia|split; [reflexivity|exact Hmove]]].
    split; [discriminate|].
    intros (_ & fv' & cv' & dv' & e & t' & [= <-] & [= <-] & [= <-] & Hraise).
    rewrite Hrun in Hraise. discriminate Hraise.
Qed.

Lemma status_of_the_response_witness :
  let data := mkRequest (Some (JString Positions.king_pawn_white))
                        (Some (JString EmptyString)) (Some (JString "easy")) in
  status (fst (get_ai_move (Board := PyChess.Board) 3 data ∅)) = 400.
Proof.
  intros data.
  apply (proj1 (status_of_the_response (Board := PyChess.Board) 3 data ∅)).
  reflexivity.
Defined.

(** ** The recursion limit *)

Section Extends.
Context {Board : Type} `{RulesProvider Board}.

Lemma extends_refl {A} (m : M Board A) : extends m m.
Proof. intros st a st' Hrun. exact Hrun. Qed.

Lemma extends_trans {A} (m1 m2 m3 : M Board A) :
  extends m1 m2 -> extends m2 m3 -> extends m1 m3.
Proof. intros H12 H23 st a st' Hrun. apply H23, H12, Hrun. Qed.

Lemma extends_bind {A B} (m m' : M Board A) (k k' : A -> M Board B) :
  extends m m' -> (forall a, extends (k a) (k' a)) -> extends (bind m k) (bind m' k').
Proof.
  intros Hm Hk st b st' Hrun.
  apply bind_returns in Hrun as (a & st1 & Hmst & Hkst).
  unfold bind. rewrite (Hm _ _ _ Hmst). apply Hk, Hkst.
Qed.

Lemma extends_quiescence_loop (rec rec' : Score -> Score -> M Board Score) :
  (forall alpha beta, extends (rec alpha beta) (rec' alpha beta)) ->
  forall moves alpha beta,
    extends (quiescence_loop rec moves alpha beta) (quiescence_loop rec' moves alpha beta).
Proof.
  intros Hrec moves. induction moves as [|m rest IH]; intros alpha beta.
  - apply extends_refl.
  - cbn [quiescence_loop].
    apply extends_bind; [apply extends_refl|]. intros _.
    apply extends_bind; [apply Hrec|]. intros r.
    apply extends_bind; [apply extends_refl|]. intros _.
    destruct (score_leb beta (score_neg r)); [apply extends_refl | apply IH].
Qed.

Lemma extends_minimax_loop (rec rec' : Score -> Score -> M Board Score) (ai : bool) :
  (forall alpha beta, extends (rec alpha beta) (rec' alpha beta)) ->
  forall moves alpha beta best flag,
    extends (minimax_loop rec ai moves alpha beta best flag)
            (minimax_loop rec' ai moves alpha beta best flag).
Proof.
  intros Hrec moves. induction moves as [|m rest IH]; intros alpha beta best flag.
  - apply extends_refl.
  - cbn [minimax_loop].
    apply extends_bind; [apply extends_refl|]. intros _.
    apply extends_bind; [apply Hrec|]. intros score.
    apply extends_bind; [apply extends_refl|]. intros _.
    match goal with
    | |- extends (if ?c then _ else _) _ => destruct c
    end; [apply extends_refl | apply IH].
Qed.

Lemma extends_root_loop (search search' : M Board Score) (ai : bool) :
  extends search search' ->
  forall moves best_score best_move,
    extends (root_loop search ai moves best_score best_move)
            (root_loop search' ai moves best_score best_move).
Proof.
  intros Hsearch moves. induction moves as [|m rest IH]; intros best_score best_move.
  - apply extends_refl.
  - cbn [root_loop].
    apply extends_bind; [apply extends_refl|]. intros _.
    apply extends_bind; [exact Hsearch|]. intros score.
    apply extends_bind; [apply extends_refl|]. intros _.
    match goal with
    | |- extends (if ?c then _ else _) _ => destruct c
    end; apply IH.
Qed.

Lemma quiescence_one_more (fuel : nat) :
  forall ai alpha beta,
    extends (quiescence_search fuel ai alpha beta)
            (quiescence_search (S fuel) ai alpha beta).
Proof.
  induction fuel as [|fuel IH]; intros ai alpha beta.
  - intros st a st' Hrun. discriminate Hrun.
  - change (quiescence_search (S (S fuel)) ai alpha beta)
      with (let* b := get_board in
            let stand_pat := Fin (evaluate_board b ai) in
            if score_leb beta stand_pat then ret beta
            else
              quiescence_loop (quiescence_search (S fuel) (negb ai))
                (sort_desc (calculate_mvl_lva b) (List.filter (is_noisy b) (legal_moves b)))
                (if score_ltb alpha stand_pat then stand_pat else alpha) beta).
    cbn [quiescence_search].
    apply extends_bind; [apply extends_refl|]. intros b. cbv zeta.
    destruct (score_leb beta (Fin (evaluate_board b ai))); [apply extends_refl|].
    apply extends_quiescence_loop. intros a' b'. apply IH.
Qed.

Lemma minimax_node_extends
      (quiesce quiesce' : bool -> Score -> Score -> M Board Score)
      (rec rec' : Z -> bool -> Score -> Score -> M Board Score) :
  (forall ai alpha beta, extends (quiesce ai alpha beta) (quiesce' ai alpha beta)) ->
  (forall depth ai alpha beta,
      extends (rec depth ai alpha beta) (rec' depth ai alpha beta)) ->
  forall key depth ai alpha beta,
    extends (minimax_node quiesce rec key depth ai alpha beta)
            (minimax_node quiesce' rec' key depth ai alpha beta).
Proof.
  intros Hq Hrec key depth ai alpha beta. unfold minimax_node.
  apply extends_bind; [apply extends_refl|]. intros b.
  destruct (depth =? 0).
  { apply extends_bind; [apply Hq|]. intros score. apply extends_refl. }
  destruct (is_checkmate b); [apply extends_refl|].
  destruct (is_draw b); [apply extends_refl|].
  apply extends_bind.
  - apply extends_minimax_loop. intros a' b'. apply Hrec.
  - intros [best flag]. apply extends_refl.
Qed.

Lemma minimax_one_more (fuel : nat) :
  forall depth ai alpha beta,
    extends (minimax fuel depth ai alpha beta) (minimax (S fuel) depth ai alpha beta).
Proof.
  induction fuel as [|fuel IH]; intros depth ai alpha beta.
  - intros st a st' Hrun. discriminate Hrun.
  - intros st a st' Hrun.
    rewrite minimax_unfold in Hrun. rewrite minimax_unfold.
    destruct (tt_probe _ _ _ _ _); [exact Hrun|].
    revert Hrun. apply minimax_node_extends.
    + apply quiescence_one_more.
    + exact IH.
Qed.

Lemma quiescence_more_fuel (fuel more : nat) :
  (fuel <= more)%nat ->
  forall ai alpha beta,
    extends (quiescence_search fuel ai alpha beta) (quiescence_search more ai alpha beta).
Proof.
  induction 1 as [|more Hle IH]; intros ai alpha beta.
  - apply extends_refl.
  - eapply extends_trans; [apply IH | apply quiescence_one_more].
Qed.

Lemma minimax_more_fuel (fuel more : nat) :
  (fuel <= more)%nat ->
  forall depth ai alpha beta,
    extends (minimax fuel depth ai alpha beta) (minimax more depth ai alpha beta).
Proof.
  induction 1 as [|more Hle IH]; intros depth ai alpha beta.
  - apply extends_refl.
  - eapply extends_trans; [apply IH | apply minimax_one_more].
Qed.

End Extends.

(** X14: a search that returns does not depend on how much room the
    recursion limit left: with any larger allowance of nested calls,
    [quiescence_search], [minimax] and the root search return the same
    value and leave the same board and table. *)
Theorem completed_search_is_independent_of_recursion_limit
        {Board} `{RulesProvider Board} (fuel more : nat) :
  (fuel <= more)%nat ->
  (forall ai alpha beta (st : State Board) s st',
      quiescence_search fuel ai alpha beta st = (inr s, st') ->
      quiescence_search more ai alpha beta st = (inr s, st'))
  /\ (forall depth ai alpha beta (st : State Board) s st',
         minimax fuel depth ai alpha beta st = (inr s, st') ->
         minimax more depth ai alpha beta st = (inr s, st'))
  /\ (forall depth ai (st : State Board) outcome st',
         root_search fuel depth ai st = (inr outcome, st') ->
         root_search more depth ai st = (inr outcome, st')).
Proof.
  intros Hle. split; [|split].
  - intros ai alpha beta. apply quiescence_more_fuel, Hle.
  - intros depth ai alpha beta. apply minimax_more_fuel, Hle.
  - intros depth ai. unfold root_search.
    apply extends_bind; [apply extends_refl|]. intros _.
    apply extends_bind; [apply extends_refl|]. intros b.
    destruct (legal_moves b) as [|m0 ms]; [apply extends_refl|].
    apply extends_bind.
    + apply extends_root_loop, minimax_more_fuel, Hle.
    + intros [bs bm]. apply extends_refl.
Qed.

Lemma completed_search_is_independent_of_recursion_limit_witness :
  let st := mkState (Positions.board_of Positions.king_pawn_white) ∅ in
  fst (minimax 3 1 true NegInf PosInf st) = inr (Fin (-199))
  /\ minimax 2000 1 true NegInf PosInf st = minimax 3 1 true NegInf PosInf st.
Proof.
  intros st.
  assert (Hrun : fst (minimax 3 1 true NegInf PosInf st) = inr (Fin (-199)))
    by (vm_compute; reflexivity).
  assert (Hle : (3 <= 2000)%nat) by lia.
  destruct (minimax 3 1 true NegInf PosInf st) as [r st'] eqn:Hm3.
  cbn [fst] in Hrun. subst r. split; [reflexivity|].
  apply (proj1 (proj2 (completed_search_is_independent_of_recursion_limit 3 2000 Hle))).
  exact Hm3.
Defined.

(** ** Depth 0 *)

(** X15: at depth 0 [minimax] asks no terminal question.  On a position
    whose legal moves include no capture, check or promotion (a position
    without any legal move, mate or stalemate, among them) and for which
    the table lookup does not return, it answers the static evaluation
    brought into the window (beta if the evaluation reaches beta, else
    the larger of alpha and the evaluation) and stores it as an EXACT
    entry of depth 0. *)
Theorem depth_zero_scores_quiet_position_statically {Board} `{RulesProvider Board}
        (fuel : nat) (ai_color_is_white : bool) (alpha beta : Score) (st : State Board) :
  (forall m, In m (legal_moves (board st)) -> is_noisy (board st) m = false) ->
  tt_probe (transposition_table st) (fen (board st)) 0 alpha beta = None ->
  let score :=
    stand_pat_in_window (Fin (evaluate_board (board st) ai_color_is_white)) alpha beta in
  minimax (S (S fuel)) 0 ai_color_is_white alpha beta st
  = (inr score,
     mkState (board st)
             (<[fen (board st) := (0, score, TT_EXACT)]> (transposition_table st))).
Proof.
  intros Hquiet Hprobe score.
  assert (Hnone : List.filter (is_noisy (board st)) (legal_moves (board st)) = []).
  { induction (legal_moves (board st)) as [|m l IH]; [reflexivity|].
    cbn [List.filter]. rewrite (Hquiet m (or_introl eq_refl)).
    apply IH. intros m' Hm'. apply Hquiet. right. exact Hm'. }
  rewrite minimax_unfold, Hprobe.
  unfold minimax_node, bind, get_board. cbn [Z.eqb].
  cbn [quiescence_search]. unfold bind, get_board. cbv zeta.
  rewrite Hnone. cbn [sort_desc fold_right quiescence_loop].
  subst score. unfold stand_pat_in_window.
  destruct (score_leb beta (Fin (evaluate_board (board st) ai_color_is_white)));
    reflexivity.
Qed.

Lemma depth_zero_scores_quiet_position_statically_witness :
  let b := Positions.board_of Positions.back_rank_mate in
  is_checkmate b = true
  /\ fst (minimax 2 0 true NegInf PosInf (mkState b ∅))
     = inr (stand_pat_in_window (Fin (evaluate_board b true)) NegInf PosInf).
Proof.
  intros b. split; [vm_compute; reflexivity|].
  rewrite (depth_zero_scores_quiet_position_statically 0 true NegInf PosInf (mkState b ∅)).
  - reflexivity.
  - assert (Hnone : legal_moves b = []) by (vm_compute; reflexivity).
    cbn [board]. rewrite Hnone. intros m [].
  - reflexivity.
Defined.

(** ** Scores are numbers *)

Lemma finite_neg (s : Score) : finite s -> finite (score_neg s).
Proof. intros [q ->]. eexists. reflexivity. Qed.

Lemma leb_finite_finite (x y : Score) :
  score_leb x y = true -> finite y -> x <> NegInf -> finite x.
Proof.
  intros Hle [q ->] Hx. destruct x as [|p|]; [contradiction|eexists; reflexivity|].
  discriminate Hle.
Qed.

Lemma not_ltb_finite (x y : Score) :
  score_ltb x y = false -> finite y -> x <> PosInf -> finite x.
Proof.
  intros Hlt [q ->] Hx. destruct x as [|p|]; [discriminate Hlt|eexists; reflexivity|].
  contradiction.
Qed.

Lemma not_ltb_finite_r (x y : Score) :
  score_ltb x y = false -> finite x -> y <> NegInf -> finite y.
Proof.
  intros Hlt [p ->] Hy. destruct y as [|q|]; [contradiction|eexists; reflexivity|].
  discriminate Hlt.
Qed.

Section Finite.
Context {Board : Type} `{RulesProvider Board}.

Lemma quiescence_loop_finite (rec : Score -> Score -> M Board Score) :
  (forall alpha beta st r st',
      alpha <> PosInf -> beta <> NegInf ->
      rec alpha beta st = (inr r, st') -> finite r) ->
  forall moves alpha beta st s st',
    finite alpha -> beta <> NegInf ->
    quiescence_loop rec moves alpha beta st = (inr s, st') -> finite s.
Proof.
  intros Hrec moves. induction moves as [|m rest IH]; intros alpha beta st s st' Ha Hb Hrun.
  - cbn in Hrun. injection Hrun as <- _. exact Ha.
  - cbn [quiescence_loop] in Hrun.
    apply bind_returns in Hrun as ([] & st1 & _ & Hrun).
    apply bind_returns in Hrun as (r & st2 & Hcall & Hrun).
    apply bind_returns in Hrun as ([] & st3 & _ & Hrun).
    assert (Hr : finite (score_neg r)).
    { apply finite_neg. eapply Hrec; [| |exact Hcall].
      - destruct beta; [contradiction|discriminate|discriminate].
      - destruct Ha as [q ->]. discriminate. }
    destruct (score_leb beta (score_neg r)) eqn:Hcut.
    + injection Hrun as <- _. eapply leb_finite_finite; eassumption.
    + eapply IH; [| |exact Hrun]; [|exact Hb].
      destruct (score_ltb alpha (score_neg r)); assumption.
Qed.

Lemma quiescence_search_finite (fuel : nat) :
  forall ai alpha beta st s st',
    alpha <> PosInf -> beta <> NegInf ->
    quiescence_search fuel ai alpha beta st = (inr s, st') -> finite s.
Proof.
  induction fuel as [|fuel IH]; intros ai alpha beta st s st' Ha Hb Hrun.
  - discriminate Hrun.
  - cbn [quiescence_search] in Hrun.
    apply bind_returns in Hrun as (b & st1 & Hget & Hrun).
    injection Hget as <- <-.
    assert (Hsp : finite (Fin (evaluate_board (board st) ai))) by (eexists; reflexivity).
    destruct (score_leb beta (Fin (evaluate_board (board st) ai))) eqn:Hpat.
    + injection Hrun as <- _. eapply leb_finite_finite; eassumption.
    + eapply quiescence_loop_finite; [| | |exact Hrun]; [|
        |exact Hb].
      * intros a' b' st0 r st0' Ha' Hb'. apply IH; assumption.
      * destruct (score_ltb alpha (Fin (evaluate_board (board st) ai))) eqn:Hraise;
          [exact Hsp|].
        eapply not_ltb_finite; eassumption.
Qed.

Lemma quiescence_search_same_table (fuel : nat) (ai : bool) (alpha beta : Score)
      (st : State Board) (r : Exn + Score) (st' : State Board) :
  quiescence_search fuel ai alpha beta st = (r, st') ->
  transposition_table st' = transposition_table st.
Proof.
  intros Hq.
  assert (Hkept : always table_kept (quiescence_search fuel ai alpha beta)).
  { apply (always_quiescence_search table_kept).
    - intros st1 st2 Heq. exact Heq.
    - intros st1 st2 st3 H12 H23. unfold table_kept in *. congruence. }
  specialize (Hkept st). rewrite Hq in Hkept. exact Hkept.
Qed.

Lemma table_finite_store (st : State Board) (key : string) (d : Z) (s : Score) (f : Flag) :
  table_finite st -> finite s ->
  table_finite (mkState (board st) (<[key := (d, s, f)]> (transposition_table st))).
Proof.
  intros Ht Hs k d' s' f' Hlook. cbn in Hlook.
  destruct (decide (key = k)) as [-> | Hne].
  - rewrite lookup_insert_eq in Hlook. injection Hlook as _ <- _. exact Hs.
  - rewrite lookup_insert_ne in Hlook by exact Hne. eapply Ht, Hlook.
Qed.

Lemma table_finite_same (st st' : State Board) :
  transposition_table st' = transposition_table st -> table_finite st -> table_finite st'.
Proof. intros Heq Ht k d s f Hlook. rewrite Heq in Hlook. eapply Ht, Hlook. Qed.

Lemma minimax_loop_finite (rec : Score -> Score -> M Board Score) (ai : bool) :
  (forall alpha beta st r st',
      table_finite st -> alpha <> PosInf -> beta <> NegInf ->
      rec alpha beta st = (inr r, st') -> finite r /\ table_finite st') ->
  forall moves alpha beta best flag st best' flag' st',
    table_finite st -> alpha <> PosInf -> beta <> NegInf ->
    best_so_far ai best -> (moves = [] -> finite best) ->
    minimax_loop rec ai moves alpha beta best flag st = (inr (best', flag'), st') ->
    finite best' /\ table_finite st'.
Proof.
  intros Hrec moves.
  induction moves as [|m rest IH];
    intros alpha beta best flag st best' flag' st' Ht Ha Hb Hbest Hnil Hrun.
  - cbn in Hrun. injection Hrun as <- _ <-. split; [apply Hnil; reflexivity | exact Ht].
  - cbn [minimax_loop] in Hrun.
    apply bind_returns in Hrun as ([] & st1 & Hpush & Hrun).
    injection Hpush as <-.
    apply bind_returns in Hrun as (score & st2 & Hcall & Hrun).
    apply bind_returns in Hrun as ([] & st3 & Hpop & Hrun).
    injection Hpop as <-.
    apply Hrec in Hcall as [Hscore Ht2].
    2:{ eapply table_finite_same; [|exact Ht]. reflexivity. }
    2:{ destruct beta; [contradiction|discriminate|discriminate]. }
    2:{ destruct alpha; [discriminate|discriminate|contradiction]. }
    assert (Hbest' : finite (if ai
                             then (if score_ltb best score then score else best)
                             else (if score_ltb score best then score else best))).
    { destruct ai.
      - destruct (score_ltb best score) eqn:Hlt; [exact Hscore|].
        destruct Hbest as [Hfin | ->]; [exact Hfin|].
        destruct Hscore as [q ->]. discriminate Hlt.
      - destruct (score_ltb score best) eqn:Hlt; [exact Hscore|].
        destruct Hbest as [Hfin | ->]; [exact Hfin|].
        destruct Hscore as [q ->]. discriminate Hlt. }
    assert (Ht3 : table_finite (mkState (pop (board st2)) (transposition_table st2))).
    { eapply table_finite_same; [|exact Ht2]. reflexivity. }
    match type of Hrun with
    | (if ?c then _ else _) _ = _ => destruct c
    end.
    + injection Hrun as <- _ <-. split; [exact Hbest' | exact Ht3].
    + eapply IH; [exact Ht3| | | | |exact Hrun].
      * destruct ai; [|exact Ha]. unfold score_max.
        destruct (score_ltb alpha score); [|exact Ha].
        destruct Hscore as [q ->]. discriminate.
      * destruct ai; [exact Hb|]. unfold score_min.
        destruct (score_ltb score beta); [|exact Hb].
        destruct Hscore as [q ->]. discriminate.
      * left. exact Hbest'.
      * intros _. exact Hbest'.
Qed.

Lemma minimax_finite (Hsane : dead_ends_are_terminal) (fuel : nat) :
  forall depth ai alpha beta st s st',
    table_finite st -> alpha <> PosInf -> beta <> NegInf ->
    minimax fuel depth ai alpha beta st = (inr s, st') ->
    finite s /\ table_finite st'.
Proof.
  induction fuel as [|fuel IH]; intros depth ai alpha beta st s st' Ht Ha Hb Hrun.
  - discriminate Hrun.
  - rewrite minimax_unfold in Hrun.
    destruct (tt_probe _ _ _ _ _) as [stored|] eqn:Hprobe.
    { injection Hrun as <- <-.
      apply tt_probe_Some in Hprobe as (d & f & Hlook & _).
      split; [eapply Ht, Hlook | exact Ht]. }
    unfold minimax_node in Hrun.
    apply bind_returns in Hrun as (b & st1 & Hget & Hrun).
    injection Hget as <- <-.
    assert (Hstore : forall (d : Z) (flag : Flag) (score : Score) (st2 : State Board),
               table_finite st2 -> finite score ->
               (let* _ := tt_store (fen (board st)) (d, score, flag) in ret score) st2
               = (inr s, st') ->
               finite s /\ table_finite st').
    { intros d flag score st2 Ht2 Hscore Hs.
      apply bind_returns in Hs as ([] & st3 & Hst & Hs).
      apply tt_store_returns in Hst. subst st3. injection Hs as <- <-.
      split; [exact Hscore | apply table_finite_store; assumption]. }
    destruct (depth =? 0).
    { apply bind_returns in Hrun as (score & st2 & Hq & Hrun).
      eapply Hstore; [| |exact Hrun].
      - eapply table_finite_same; [|exact Ht].
        eapply quiescence_search_same_table, Hq.
      - eapply quiescence_search_finite; [exact Ha|exact Hb|exact Hq]. }
    destruct (is_checkmate (board st)) eqn:Hmate.
    { eapply Hstore; [exact Ht| |exact Hrun].
      destruct (Bool.eqb _ _); eexists; reflexivity. }
    destruct (is_draw (board st)) eqn:Hdraw.
    { eapply Hstore; [exact Ht| |exact Hrun]. eexists; reflexivity. }
    apply bind_returns in Hrun as ([best flag] & st2 & Hloop & Hrun).
    apply minimax_loop_finite in Hloop as [Hbest Ht2].
    + eapply Hstore; [exact Ht2|exact Hbest|exact Hrun].
    + intros a' b' st0 r st0' Ht0 Ha' Hb'. apply IH; assumption.
    + exact Ht.
    + exact Ha.
    + exact Hb.
    + right. reflexivity.
    + intros Hnil. exfalso. apply (Hsane (board st) Hmate Hdraw).
      apply Permutation_nil. rewrite <- Hnil. apply sort_desc_perm.
Qed.

Lemma root_loop_finite (search : M Board Score) (ai : bool) :
  (forall st r st', table_finite st -> search st = (inr r, st') ->
                    finite r /\ table_finite st') ->
  forall moves best_score best_move st s bm st',
    table_finite st ->
    (finite best_score /\ best_move <> None)
    \/ (best_score = (if ai then NegInf else PosInf) /\ moves <> []) ->
    root_loop search ai moves best_score best_move st = (inr (s, bm), st') ->
    finite s /\ bm <> None /\ table_finite st'.
Proof.
  intros Hsearch moves.
  induction moves as [|m rest IH]; intros best_score best_move st s bm st' Ht Hinv Hrun.
  - cbn in Hrun. injection Hrun as <- <- <-.
    destruct Hinv as [[Hs Hbm]|[_ Hnil]]; [|contradiction].
    split; [exact Hs|]. split; [exact Hbm | exact Ht].
  - cbn [root_loop] in Hrun.
    apply bind_returns in Hrun as ([] & st1 & Hpush & Hrun).
    injection Hpush as <-.
    apply bind_returns in Hrun as (score & st2 & Hcall & Hrun).
    apply bind_returns in Hrun as ([] & st3 & Hpop & Hrun).
    injection Hpop as <-.
    apply Hsearch in Hcall as [Hscore Ht2];
      [|eapply table_finite_same; [|exact Ht]; reflexivity].
    assert (Ht3 : table_finite (mkState (pop (board st2)) (transposition_table st2))).
    { eapply table_finite_same; [|exact Ht2]. reflexivity. }
    match type of Hrun with
    | (if ?c then _ else _) _ = _ => destruct c eqn:Hbetter
    end.
    + eapply IH; [exact Ht3| |exact Hrun]. left. split; [exact Hscore|discriminate].
    + eapply IH; [exact Ht3| |exact Hrun]. left.
      destruct Hinv as [Hdone | [-> _]]; [exact Hdone|].
      exfalso. destruct Hscore as [q ->]. destruct ai; discriminate Hbetter.
Qed.

End Finite.

(** X16: if the rules provider reports every position without a legal
    move as checkmate or draw, the root search, when it returns, either
    found no legal move at the root or selected one of the root's legal
    moves with a score that is a number, and every score that the table
    holds afterwards is a number: it never ends without a move while
    legal moves exist, and no infinity is answered or left in the
    table. *)
Theorem root_search_always_selects_a_move {Board} `{RulesProvider Board}
        (fuel : nat) (depth : Z) (ai_is_white : bool)
        (st : State Board) (outcome : Outcome) (st' : State Board) :
  dead_ends_are_terminal ->
  root_search fuel depth ai_is_white st = (inr outcome, st') ->
  ((outcome = NoLegalMoves /\ legal_moves (board st) = [])
   \/ exists q m, outcome = Searched (Fin q) (Some m) /\ In m (legal_moves (board st)))
  /\ table_finite st'.
Proof.
  intros Hsane Hrun. pose proof Hrun as Hrun0. unfold root_search in Hrun.
  apply bind_returns in Hrun as ([] & st1 & Hclear & Hrun).
  injection Hclear as <-.
  apply bind_returns in Hrun as (b & st1 & Hget & Hrun).
  injection Hget as <- <-. cbn [board] in Hrun.
  assert (Hempty : table_finite (mkState (board st) (∅ : Table))).
  { intros k d s f Hlook. cbn in Hlook. rewrite lookup_empty in Hlook.
    discriminate Hlook. }
  destruct (legal_moves (board st)) as [|m0 ms] eqn:Hmoves.
  { injection Hrun as <- <-. split; [|exact Hempty]. left. split; reflexivity. }
  apply bind_returns in Hrun as ([bs bm] & st2 & Hloop & Hrun).
  injection Hrun as <- <-.
  apply root_loop_finite in Hloop as ([q ->] & Hbm & Ht2).
  - split; [|exact Ht2]. right.
    destruct bm as [m|]; [|contradiction].
    exists q, m. split; [reflexivity|].
    rewrite <- Hmoves. eapply root_search_selects_legal_move, Hrun0.
  - intros st0 r st0' Ht0 Hcall.
    eapply minimax_finite; [exact Hsane|exact Ht0| | |exact Hcall]; discriminate.
  - exact Hempty.
  - right. split; [reflexivity|].
    intros Hnil. apply (f_equal (@length Move)) in Hnil.
    rewrite (Permutation_length (sort_desc_perm _ _)) in Hnil. discriminate Hnil.
Qed.

Lemma not_draw_not_stalemate {Board} `{RulesProvider Board} (b : Board) :
  is_draw b = false -> is_stalemate b = false.
Proof.
  intros Hdraw. unfold is_draw in Hdraw.
  destruct (is_stalemate b); [discriminate Hdraw | reflexivity].
Qed.

Lemma pychess_no_move_is_mate_or_stalemate (pos : PyChess.Position) :
  PyChess.position_is_checkmate pos = false ->
  PyChess.position_is_stalemate pos = false ->
  PyChess.generate_legal_moves pos <> [].
Proof.
  unfold PyChess.position_is_checkmate, PyChess.position_is_stalemate,
    PyChess.no_legal_move.
  intros Hmate Hstale Hnil. rewrite Hnil in Hmate, Hstale.
  destruct (PyChess.position_is_check pos); discriminate.
Qed.

Lemma pychess_is_checkmate (b : PyChess.Board) :
  is_checkmate b = PyChess.position_is_checkmate (PyChess.position b).
Proof. reflexivity. Qed.

Lemma pychess_is_stalemate (b : PyChess.Board) :
  is_stalemate b = PyChess.position_is_stalemate (PyChess.position b).
Proof. reflexivity. Qed.

Lemma pychess_legal_moves (b : PyChess.Board) :
  legal_moves b = PyChess.generate_legal_moves (PyChess.position b).
Proof. reflexivity. Qed.

Lemma pychess_dead_ends_are_terminal : dead_ends_are_terminal (Board := PyChess.Board).
Proof.
  intros b Hmate Hdraw. apply not_draw_not_stalemate in Hdraw.
  rewrite pychess_is_checkmate in Hmate. rewrite pychess_is_stalemate in Hdraw.
  rewrite pychess_legal_moves.
  apply pychess_no_move_is_mate_or_stalemate; assumption.
Qed.

Lemma root_search_always_selects_a_move_witness :
  let st := mkState (Positions.board_of Positions.king_pawn_white) ∅ in
  (exists q m,
      fst (root_search 3 1 true st) = inr (Searched (Fin q) (Some m))
      /\ In m (legal_moves (board st)))
  /\ table_finite (snd (root_search 3 1 true st)).
Proof.
  intros st.
  destruct (root_search 3 1 true st) as [[e|outcome] st'] eqn:Hrun.
  - exfalso. apply (f_equal fst) in Hrun. vm_compute in Hrun. discriminate Hrun.
  - destruct (root_search_always_selects_a_move
                3 1 true st outcome st' pychess_dead_ends_are_terminal Hrun)
      as [[[_ Hnil]|(q & m & -> & Hin)] Htable].
    + exfalso. vm_compute in Hnil. discriminate Hnil.
    + split; [|exact Htable]. exists q, m. split; [reflexivity | exact Hin].
Defined.
